(** * Sphere subdivision and painter's rendering of [Module8/webgl-HSRP.js]

    A shallow embedding of [refineSphere], [createSphereBuffers],
    [transformVertex] and the per-frame body of [renderSphere], with the
    properties of the mesh generator and of the depth-sorted draw order.

    JavaScript numbers are embedded as the type [number] below: the IEEE
    special values are kept ([NaN], the two infinities), finite values are
    exact rationals in lowest terms.  The arithmetic of the program itself
    ([+], [-], [*], [/] on array lengths, indices, depths and colours) is
    exact on finite values: rounding to binary64 is not represented, and
    neither is the sign of zero.

    The functions of the gl-matrix library are not part of the repository:
    [vec3.add], [vec3.normalize] and [vec4.transformMat4] are parameters of
    the development.  Where a property depends on what they compute, it is
    stated for every implementation that is accurate enough; a reference
    implementation in exact arithmetic shows that the assumption can be
    met and runs the examples. *)

From Stdlib Require Import List Arith ZArith QArith Qreduction Qabs Qpower Bool.
From Stdlib Require Import Lia Lqa.
From Stdlib Require Import Permutation Sorted.
Import ListNotations.

Set Implicit Arguments.
Open Scope nat_scope.

(** ** JavaScript numbers *)

Module Number.

Inductive number : Type :=
| NaN
| Inf (negative : bool)
| Fin (q : Q).

(** A finite value, in lowest terms. *)
Definition fin (q : Q) : number := Fin (Qred q).

(** An array length or a loop counter seen as a number. *)
Definition of_nat (n : nat) : number := Fin (Z.of_nat n # 1).

(** A decimal literal of the source, [n / d]. *)
Definition lit (n : Z) (d : positive) : number := fin (n # d).

Definition isneg (q : Q) : bool := (Qnum q <? 0)%Z.
Definition iszero (q : Q) : bool := (Qnum q =? 0)%Z.

(** [x + y] *)
Definition add (x y : number) : number :=
  match x, y with
  | NaN, _ | _, NaN => NaN
  | Inf s, Inf s' => if Bool.eqb s s' then Inf s else NaN
  | Inf s, Fin _ | Fin _, Inf s => Inf s
  | Fin a, Fin b => fin (a + b)
  end.

(** [x - y] *)
Definition sub (x y : number) : number :=
  match x, y with
  | NaN, _ | _, NaN => NaN
  | Inf s, Inf s' => if Bool.eqb s s' then NaN else Inf s
  | Inf s, Fin _ => Inf s
  | Fin _, Inf s => Inf (negb s)
  | Fin a, Fin b => fin (a - b)
  end.

(** [x * y] *)
Definition mul (x y : number) : number :=
  match x, y with
  | NaN, _ | _, NaN => NaN
  | Inf s, Inf s' => Inf (xorb s s')
  | Inf s, Fin q | Fin q, Inf s =>
      if iszero q then NaN else Inf (xorb s (isneg q))
  | Fin a, Fin b => fin (a * b)
  end.

(** [x / y]: [0 / 0] is [NaN], any other finite value over zero is an
    infinity. *)
Definition div (x y : number) : number :=
  match x, y with
  | NaN, _ | _, NaN => NaN
  | Inf _, Inf _ => NaN
  | Inf s, Fin q => Inf (xorb s (isneg q))
  | Fin _, Inf _ => Fin 0
  | Fin a, Fin b =>
      if iszero b then (if iszero a then NaN else Inf (isneg a))
      else fin (a / b)
  end.

(** [x < y]; false as soon as one side is [NaN]. *)
Definition ltb (x y : number) : bool :=
  match x, y with
  | NaN, _ | _, NaN => false
  | Inf s, Inf s' => s && negb s'
  | Inf s, Fin _ => s
  | Fin _, Inf s => negb s
  | Fin a, Fin b => negb (Qle_bool b a)
  end.

(** [x === y] on numbers; [NaN] is different from itself. *)
Definition strict_eq (x y : number) : bool :=
  match x, y with
  | NaN, _ | _, NaN => false
  | Inf s, Inf s' => Bool.eqb s s'
  | Fin a, Fin b => Qeq_bool a b
  | _, _ => false
  end.

Definition is_nan (x : number) : bool :=
  match x with NaN => true | _ => false end.

(** The order of the number line, [NaN] left out: what "non-decreasing"
    means for a sequence of numbers. *)
Definition le (x y : number) : Prop :=
  match x, y with
  | NaN, _ | _, NaN => False
  | Inf true, _ => True
  | _, Inf false => True
  | Inf false, _ => False
  | _, Inf true => False
  | Fin a, Fin b => (a <= b)%Q
  end.

(** Mathematical equality of two numbers ([NaN] included, unlike [===]). *)
Definition same (x y : number) : bool :=
  match x, y with
  | NaN, NaN => true
  | Inf s, Inf s' => Bool.eqb s s'
  | Fin a, Fin b => Qeq_bool a b
  | _, _ => false
  end.

(** [ToNumber] of a value read from an array of numbers: a hole or an index
    out of range reads as [undefined], which converts to [NaN]. *)
Definition to_number (o : option number) : number :=
  match o with Some x => x | None => NaN end.

(** [arr[i]] for a number [i]: only a non-negative integer names an
    element. *)
Definition array_get (arr : list number) (i : number) : option number :=
  match i with
  | Fin q =>
      match Qred q with
      | Qmake (Zpos p) 1 => nth_error arr (Pos.to_nat p)
      | Qmake Z0 1 => nth_error arr 0
      | _ => None
      end
  | _ => None
  end.

(** [-x] *)
Definition neg (x : number) : number :=
  match x with
  | NaN => NaN
  | Inf s => Inf (negb s)
  | Fin a => fin (- a)
  end.

(** [Math.abs(x)] *)
Definition abs (x : number) : number :=
  match x with
  | NaN => NaN
  | Inf _ => Inf false
  | Fin a => fin (Qabs a)
  end.

(** The element that [new Uint16Array(array)] stores for the number [x]:
    zero for [NaN] and the infinities, otherwise the integer part of [x]
    modulo [2^16]. *)
Definition to_uint16 (x : number) : Z :=
  match x with
  | Fin q => Z.modulo (Z.quot (Qnum q) (Zpos (Qden q))) 65536
  | _ => 0%Z
  end.

(** [x] is one of 0, 1, 2, ... *)
Definition is_natural (x : number) : Prop :=
  match x with
  | Fin q => exists n : nat, (q == Z.of_nat n # 1)%Q
  | _ => False
  end.

End Number.

Import Number.

(** ** Vectors of gl-matrix *)

(** A [vec3] holds three numbers; [vec3.fromValues(x, y, z)] builds one. *)
Definition vec3 : Type := (number * number * number)%type.

Definition vec3_fromValues (x y z : number) : vec3 := (x, y, z).

(** [...v]: the components in order. *)
Definition spread (v : vec3) : list number :=
  let '(x, y, z) := v in [x; y; z].

(** A [vec4] holds four numbers. *)
Definition vec4 : Type := (number * number * number * number)%type.

Definition vec4_fromValues (x y z w : number) : vec4 := (x, y, z, w).

(** A [mat4] is an array of sixteen numbers, one column after the other. *)
Definition mat4 : Type := list number.

(** The two output arrays [vertices] and [indices] that [refineSphere]
    receives by reference and extends in place; [sphereData] carries the
    same two arrays to the renderer. *)
Record buffers : Type := Buffers {
  vertices : list number;
  indices : list number
}.

Definition empty_buffers : buffers := Buffers [] [].

(** An entry of the [triangles] array of [renderSphere]:
    [{ vertices: [...v0, ...v1, ...v2], avgDepth: avgDepth }]. *)
Record triangle : Type := Triangle {
  tri_vertices : list number;
  avgDepth : number
}.

(** What one turn of the [forEach] of [renderSphere] hands to the GL
    context: the colour given to [uniform4fv] and the vertex data given to
    [bufferData] before [drawArrays(TRIANGLES, 0, 3)]. *)
Record draw_command : Type := DrawCommand {
  dc_color : list number;
  dc_vertices : list number
}.

(** ** Vectors of finite numbers

    The coordinates of a vector whose three components are finite, and the
    measures used to state how far a computed vector is from an exact
    one. *)

Section QVectors.

Local Open Scope Q_scope.

Definition qvec : Type := (Q * Q * Q)%type.

Definition val (p : vec3) : option qvec :=
  match p with
  | (Fin x, Fin y, Fin z) => Some (x, y, z)
  | _ => None
  end.

Definition qdot (a b : qvec) : Q :=
  let '(a0, a1, a2) := a in
  let '(b0, b1, b2) := b in
  a0 * b0 + a1 * b1 + a2 * b2.

Definition qadd (a b : qvec) : qvec :=
  let '(a0, a1, a2) := a in
  let '(b0, b1, b2) := b in
  (a0 + b0, a1 + b1, a2 + b2).

Definition qscale (s : Q) (a : qvec) : qvec :=
  let '(a0, a1, a2) := a in (s * a0, s * a1, s * a2).

(** Each component of [a] is within [e] of the same component of [b]. *)
Definition close (e : Q) (a b : qvec) : Prop :=
  let '(a0, a1, a2) := a in
  let '(b0, b1, b2) := b in
  (- e <= a0 - b0 /\ a0 - b0 <= e) /\
  (- e <= a1 - b1 /\ a1 - b1 <= e) /\
  (- e <= a2 - b2 /\ a2 - b2 <= e).

(** Each component of [a] is between [- C] and [C]. *)
Definition within (C : Q) (a : qvec) : Prop :=
  let '(a0, a1, a2) := a in
  (- C <= a0 /\ a0 <= C) /\ (- C <= a1 /\ a1 <= C) /\ (- C <= a2 /\ a2 <= C).

(** The accuracy asked of one gl-matrix operation: [1e-6], some sixteen
    times the rounding unit of binary32. *)
Definition eps : Q := 1 # 1000000.

(** The squares of [1 - 1e-5] and of [1 + 1e-5]. *)
Definition lo : Q := (99999 # 100000) * (99999 # 100000).
Definition hi : Q := (100001 # 100000) * (100001 # 100000).

(** The Euclidean length of [q] is within [1e-5] of 1. *)
Definition unitish (q : qvec) : Prop := lo <= qdot q q /\ qdot q q <= hi.

(** The same for a vector of numbers, which must be finite. *)
Definition near_unit (p : vec3) : Prop :=
  match val p with
  | Some q => unitish q
  | None => False
  end.

(** The least inner product of two corners of a triangle that the proof
    keeps track of; the faces of the tetrahedron are at about [-1/3]. *)
Definition dmin : Q := - (34 # 100).

(** [m] is a computed midpoint of [q1] and [q2]: a sum accurate to [eps],
    scaled to a length accurate to [eps], with components accurate to
    [eps]. *)
Definition mid_of (q1 q2 m : qvec) : Prop :=
  exists s a,
    close eps a (qadd q1 q2) /\ 0 < s /\
    1 - eps <= s * s * qdot a a /\ s * s * qdot a a <= 1 + eps /\
    close eps m (qscale s a).

(** The corners of a triangle are near the unit sphere and no two of them
    are near opposite. *)
Definition good_triangle (q1 q2 q3 : qvec) : Prop :=
  unitish q1 /\ unitish q2 /\ unitish q3 /\
  dmin <= qdot q1 q2 /\ dmin <= qdot q2 q3 /\ dmin <= qdot q3 q1.

(** [vec3.add] is accurate: on finite vectors with components in [-2, 2]
    it returns a finite vector within [eps] of the sum. *)
Definition accurate_add (vec3_add : vec3 -> vec3 -> vec3) : Prop :=
  forall a b qa qb,
    val a = Some qa -> val b = Some qb -> within 2 qa -> within 2 qb ->
    exists qc, val (vec3_add a b) = Some qc /\ close eps qc (qadd qa qb).

(** [vec3.normalize] is accurate: on a finite vector of length at least 1
    with components in [-3, 3] it returns a finite vector within [eps] of
    the argument scaled by some [s], the scaled length being within [eps]
    of 1. *)
Definition accurate_normalize (vec3_normalize : vec3 -> vec3) : Prop :=
  forall a qa,
    val a = Some qa -> 1 <= qdot qa qa -> within 3 qa ->
    exists s qu,
      val (vec3_normalize a) = Some qu /\ 0 < s /\
      1 - eps <= s * s * qdot qa qa /\ s * s * qdot qa qa <= 1 + eps /\
      close eps qu (qscale s qa).

End QVectors.

(** ** [Array.prototype.sort]

    The language fixes the result for a consistent comparison function:
    the elements in the order of the comparator, equal ones in their
    original order.  Insertion from the right is one such procedure.  A
    comparator result is read by its sign; [NaN] counts as zero. *)

Section ArraySort.

Variable A : Type.
Variable comparefn : A -> A -> number.

Fixpoint sort_insert (x : A) (l : list A) : list A :=
  match l with
  | [] => [x]
  | y :: l' =>
      if ltb (Fin 0) (comparefn x y) then y :: sort_insert x l'
      else x :: y :: l'
  end.

Fixpoint array_sort (l : list A) : list A :=
  match l with
  | [] => []
  | x :: l' => sort_insert x (array_sort l')
  end.

End ArraySort.

(** ** A reference instance of the gl-matrix functions

    The closed examples below run the program with these: the arithmetic
    of gl-matrix 3 on [number], with [Math.sqrt] rounded down to a multiple
    of [2^-32]. *)

Module Reference.

(** The square root of [q] rounded down to a multiple of [2^-32]. *)
Definition sqrt_down (q : Q) : Q :=
  Z.sqrt (Qnum q * 2 ^ 64 / Zpos (Qden q)) # 2 ^ 32.

Definition Math_sqrt (x : number) : number :=
  match x with
  | NaN => NaN
  | Inf true => NaN
  | Inf false => Inf false
  | Fin q => if isneg q then NaN else fin (sqrt_down q)
  end.

Definition vec3_add (a b : vec3) : vec3 :=
  let '(a0, a1, a2) := a in
  let '(b0, b1, b2) := b in
  (add a0 b0, add a1 b1, add a2 b2).

Definition vec3_normalize (a : vec3) : vec3 :=
  let '(x, y, z) := a in
  let len := add (add (mul x x) (mul y y)) (mul z z) in
  let len := if ltb (Fin 0) len then div (Fin 1) (Math_sqrt len) else len in
  (mul x len, mul y len, mul z len).

Definition vec4_transformMat4 (a : vec4) (m : mat4) : vec4 :=
  let '(x, y, z, w) := a in
  let e i := nth i m NaN in
  (add (add (add (mul (e 0%nat) x) (mul (e 4%nat) y)) (mul (e 8%nat) z))
       (mul (e 12%nat) w),
   add (add (add (mul (e 1%nat) x) (mul (e 5%nat) y)) (mul (e 9%nat) z))
       (mul (e 13%nat) w),
   add (add (add (mul (e 2%nat) x) (mul (e 6%nat) y)) (mul (e 10%nat) z))
       (mul (e 14%nat) w),
   add (add (add (mul (e 3%nat) x) (mul (e 7%nat) y)) (mul (e 11%nat) z))
       (mul (e 15%nat) w)).

(** [mat4.create()]: the identity. *)
Definition mat4_create : mat4 :=
  [Fin 1; Fin 0; Fin 0; Fin 0;
   Fin 0; Fin 1; Fin 0; Fin 0;
   Fin 0; Fin 0; Fin 1; Fin 0;
   Fin 0; Fin 0; Fin 0; Fin 1].

End Reference.

(** ** Runs that may need more fuel

    A run is [Some] result or [None] when the fuel is used up; the
    statements of a function body are chained in the order they run. *)

Notation "x <- c ;; k" :=
  (match c with
   | Some x => k
   | None => None
   end)
  (at level 61, c at next level, right associativity).

(** ** The gasket of [Module4/webgl-cube.js]

    The arrays of this program hold numbers that are only read by
    arithmetic and by [new Float32Array(...)]; an element that is
    [undefined] (destructuring an array that is too short) is kept as
    [NaN], which is what both readers make of it. *)

Module Gasket.

(** [sierpinskiT(vertices, depth, points)]: the [points] array after the
    call.  The fuel bounds the depth of the call stack. *)
Fixpoint sierpinskiT (fuel : nat) (vertices : list number) (depth : number)
    (points : list number) : option (list number) :=
  match fuel with
  | O => None
  | S fuel' =>
      if strict_eq depth (Fin 0) then Some (points ++ vertices)
      else
        let x1 := nth 0 vertices NaN in
        let y1 := nth 1 vertices NaN in
        let x2 := nth 2 vertices NaN in
        let y2 := nth 3 vertices NaN in
        let x3 := nth 4 vertices NaN in
        let y3 := nth 5 vertices NaN in
        let mid1 := [div (add x1 x2) (Fin 2); div (add y1 y2) (Fin 2)] in
        let mid2 := [div (add x2 x3) (Fin 2); div (add y2 y3) (Fin 2)] in
        let mid3 := [div (add x1 x3) (Fin 2); div (add y1 y3) (Fin 2)] in
        p1 <- sierpinskiT fuel' ([x1; y1] ++ mid1 ++ mid3)
                (sub depth (Fin 1)) points ;;
        p2 <- sierpinskiT fuel' (mid1 ++ [x2; y2] ++ mid2)
                (sub depth (Fin 1)) p1 ;;
        sierpinskiT fuel' (mid3 ++ mid2 ++ [x3; y3]) (sub depth (Fin 1)) p2
  end.

Definition initialVertices : list number :=
  [lit (-1) 2; lit (-1) 2; lit 1 2; lit (-1) 2; lit 0 1; lit 1 2].

Definition maxDepth : number := Fin 5.

(** The variables [currentDepth] and [points] of [initialize]. *)
Record state : Type := State {
  currentDepth : number;
  points : list number
}.

(** What one drawing of the gasket hands to WebGL: the numbers uploaded by
    [bufferData] and the vertex count given to [drawArrays]. *)
Record draw : Type := Draw {
  data : list number;
  count : number
}.

(** One call of [animateGasket]: the state after it, its drawing, and
    whether a timer was set for the next call. *)
Definition animateGasket (fuel : nat) (st : state)
    : option (state * draw * bool) :=
  pts <- sierpinskiT fuel initialVertices (currentDepth st) [] ;;
  let drawn := Draw pts (div (of_nat (length pts)) (Fin 2)) in
  if ltb (currentDepth st) maxDepth
  then Some (State (add (currentDepth st) (Fin 1)) pts, drawn, true)
  else Some (State (currentDepth st) pts, drawn, false).

(** The timers: [animateGasket] runs again as long as the call before set
    one.  [events] bounds the number of timer events. *)
Fixpoint run_timers (events fuel : nat) (st : state) (pending : bool)
    : option (list draw) :=
  if pending then
    match events with
    | O => None
    | S events' =>
        match animateGasket fuel st with
        | Some (st', drawn, pending') =>
            rest <- run_timers events' fuel st' pending' ;;
            Some (drawn :: rest)
        | None => None
        end
    end
  else Some [].

(** The whole of [initialize], as its drawings in the order they happen:
    the first frame of the animation, the drawing at depth 5 that follows
    it in the same turn on the same [points] array, and the frames that
    the timers bring. *)
Definition initialize (events fuel : nat) : option (list draw) :=
  match animateGasket fuel (State (Fin 0) []) with
  | Some (st, first, pending) =>
      pts <- sierpinskiT fuel initialVertices (Fin 5) (points st) ;;
      let second := Draw pts (div (of_nat (length pts)) (Fin 2)) in
      rest <- run_timers events fuel (State (currentDepth st) pts) pending ;;
      Some (first :: second :: rest)
  | None => None
  end.

(** The [points] that a call at depth [d] appends. *)
Fixpoint gasket (d : nat) (vertices : list number) : list number :=
  match d with
  | O => vertices
  | S d' =>
      let x1 := nth 0 vertices NaN in
      let y1 := nth 1 vertices NaN in
      let x2 := nth 2 vertices NaN in
      let y2 := nth 3 vertices NaN in
      let x3 := nth 4 vertices NaN in
      let y3 := nth 5 vertices NaN in
      let mid1 := [div (add x1 x2) (Fin 2); div (add y1 y2) (Fin 2)] in
      let mid2 := [div (add x2 x3) (Fin 2); div (add y2 y3) (Fin 2)] in
      let mid3 := [div (add x1 x3) (Fin 2); div (add y1 y3) (Fin 2)] in
      gasket d' ([x1; y1] ++ mid1 ++ mid3) ++
      gasket d' (mid1 ++ [x2; y2] ++ mid2) ++
      gasket d' (mid3 ++ mid2 ++ [x3; y3])
  end.




End Gasket.

(** ** Writing into an array of numbers

    [arr[i] = v] for a natural number [i]: inside the array the element is
    replaced; beyond its end the array grows up to [i], and the places
    skipped are holes, kept as [NaN] like the other values that are not
    numbers. *)

Definition write_at (i : nat) (v : number) (arr : list number)
    : list number :=
  if i <? length arr then firstn i arr ++ v :: skipn (S i) arr
  else arr ++ repeat NaN (i - length arr) ++ [v].

(** [arr[i] = v] for a number [i]: a number that is not a natural number
    names a property of the object, not an element, and the elements stay
    as they are. *)
Definition array_set (arr : list number) (i : number) (v : number)
    : list number :=
  match i with
  | Fin q =>
      match Qred q with
      | Qmake (Zpos p) 1 => write_at (Pos.to_nat p) v arr
      | Qmake Z0 1 => write_at 0 v arr
      | _ => arr
      end
  | _ => arr
  end.

(** ** Picking a face of the cube ([part_000]) *)

Module Picking.

Definition pinkColors : list number :=
  [lit 1 1; lit 5 10; lit 5 10; lit 1 1; lit 5 10; lit 5 10;
   lit 1 1; lit 5 10; lit 5 10; lit 1 1; lit 5 10; lit 5 10;
   lit 9 10; lit 4 10; lit 4 10; lit 9 10; lit 4 10; lit 4 10;
   lit 9 10; lit 4 10; lit 4 10; lit 9 10; lit 4 10; lit 4 10;
   lit 8 10; lit 3 10; lit 5 10; lit 8 10; lit 3 10; lit 5 10;
   lit 8 10; lit 3 10; lit 5 10; lit 8 10; lit 3 10; lit 5 10;
   lit 7 10; lit 5 10; lit 6 10; lit 7 10; lit 5 10; lit 6 10;
   lit 7 10; lit 5 10; lit 6 10; lit 7 10; lit 5 10; lit 6 10;
   lit 9 10; lit 5 10; lit 7 10; lit 9 10; lit 5 10; lit 7 10;
   lit 9 10; lit 5 10; lit 7 10; lit 9 10; lit 5 10; lit 7 10;
   lit 1 1; lit 6 10; lit 8 10; lit 1 1; lit 6 10; lit 8 10;
   lit 1 1; lit 6 10; lit 8 10; lit 1 1; lit 6 10; lit 8 10].

(** What [whichSideClicked] reads of the event and of the canvas; [left]
    and [top] are those of [canvas.getBoundingClientRect()]. *)
Record MouseEvent : Type := {
  clientX : number;
  clientY : number
}.

Record Canvas : Type := {
  width : number;
  height : number;
  left : number;
  top : number
}.

Definition whichSideClicked (event : MouseEvent) (canvas : Canvas)
    : number :=
  let x :=
    sub (mul (div (sub (clientX event) (left canvas)) (width canvas))
             (Fin 2)) (Fin 1) in
  let y :=
    neg (sub (mul (div (sub (clientY event) (top canvas)) (height canvas))
                  (Fin 2)) (Fin 1)) in
  if ltb (lit 5 10) x then Fin 4
  else if ltb x (lit (-5) 10) then Fin 5
  else if ltb (lit 5 10) y then Fin 2
  else if ltb y (lit (-5) 10) then Fin 3
  else if ltb (abs x) (lit 5 10) && ltb (lit (-5) 10) y && ltb y (lit 5 10)
  then Fin 0
  else Fin 1.

(** [highlightSide(gl, colorBuffer, clickedSide)]: the numbers that it
    uploads into the colour buffer.  [newColors] is a copy of
    [pinkColors]; the loop counter [i] takes the values 0, 3, 6 and 9. *)
Definition highlightSide (clickedSide : number) : list number :=
  let newColors := pinkColors in
  if negb (strict_eq clickedSide (Fin (-1 # 1))) then
    let startIndex := mul clickedSide (Fin 12) in
    fold_left
      (fun newColors i =>
         let newColors := array_set newColors (add startIndex i) (Fin 0) in
         let newColors :=
           array_set newColors (add (add startIndex i) (Fin 1)) (Fin 1) in
         array_set newColors (add (add startIndex i) (Fin 2)) (Fin 0))
      [Fin 0; Fin 3; Fin 6; Fin 9] newColors
  else newColors.

(** The variable [clickedSide] of [main] and the content of the colour
    buffer. *)
Record state : Type := State {
  clickedSide : number;
  colorBuffer : list number
}.

(** After [main] has set things up: no face picked, the colours of
    [initBuffers]. *)
Definition initial : state := State (Fin (-1 # 1)) pinkColors.

(** The listener of the clicks on the canvas. *)
Definition onClick (st : state) (event : MouseEvent) (canvas : Canvas)
    : state :=
  let faceIndex := whichSideClicked event canvas in
  if negb (strict_eq faceIndex (Fin (-1 # 1)))
  then State faceIndex (highlightSide faceIndex)
  else st.

(** The coordinates [x] and [y] that [whichSideClicked] computes. *)
Definition click_x (event : MouseEvent) (canvas : Canvas) : number :=
  sub (mul (div (sub (clientX event) (left canvas)) (width canvas))
           (Fin 2)) (Fin 1).

Definition click_y (event : MouseEvent) (canvas : Canvas) : number :=
  neg (sub (mul (div (sub (clientY event) (top canvas)) (height canvas))
                (Fin 2)) (Fin 1)).

End Picking.

(** ** The spinning cube of [Module4/webgl-cube.js] *)

Module Cube.

Section Rotation.

(** [Math.sin] and [Math.cos]. *)
Variables Math_sin Math_cos : number -> number.

(** The array [matrix] after [rotateX(matrix, angle)]. *)
Definition rotateX (matrix : list number) (angle : number) : list number :=
  let sin := Math_sin angle in
  let cos := Math_cos angle in
  let mv1 := nth 1 matrix NaN in
  let mv5 := nth 5 matrix NaN in
  let mv9 := nth 9 matrix NaN in
  let matrix :=
    write_at 1 (sub (mul mv1 cos) (mul (nth 2 matrix NaN) sin)) matrix in
  let matrix :=
    write_at 5 (sub (mul mv5 cos) (mul (nth 6 matrix NaN) sin)) matrix in
  let matrix :=
    write_at 9 (sub (mul mv9 cos) (mul (nth 10 matrix NaN) sin)) matrix in
  let matrix :=
    write_at 2 (add (mul mv1 sin) (mul (nth 2 matrix NaN) cos)) matrix in
  let matrix :=
    write_at 6 (add (mul mv5 sin) (mul (nth 6 matrix NaN) cos)) matrix in
  write_at 10 (add (mul mv9 sin) (mul (nth 10 matrix NaN) cos)) matrix.

(** The array [matrix] after [rotateY(matrix, angle)]. *)
Definition rotateY (matrix : list number) (angle : number) : list number :=
  let sin := Math_sin angle in
  let cos := Math_cos angle in
  let mv0 := nth 0 matrix NaN in
  let mv4 := nth 4 matrix NaN in
  let mv8 := nth 8 matrix NaN in
  let matrix :=
    write_at 0 (add (mul mv0 cos) (mul (nth 2 matrix NaN) sin)) matrix in
  let matrix :=
    write_at 4 (add (mul mv4 cos) (mul (nth 6 matrix NaN) sin)) matrix in
  let matrix :=
    write_at 8 (add (mul mv8 cos) (mul (nth 10 matrix NaN) sin)) matrix in
  let matrix :=
    write_at 2 (add (mul mv0 (neg sin)) (mul (nth 2 matrix NaN) cos))
      matrix in
  let matrix :=
    write_at 6 (add (mul mv4 (neg sin)) (mul (nth 6 matrix NaN) cos))
      matrix in
  write_at 10 (add (mul mv8 (neg sin)) (mul (nth 10 matrix NaN) cos))
    matrix.

(** The variables [oldTime] and [movMatrix]. *)
Record state : Type := State {
  oldTime : number;
  movMatrix : list number
}.

Definition initial : state :=
  State (Fin 0)
    [Fin 1; Fin 0; Fin 0; Fin 0; Fin 0; Fin 1; Fin 0; Fin 0;
     Fin 0; Fin 0; Fin 1; Fin 0; Fin 0; Fin 0; Fin 0; Fin 1].

(** One frame: [animate(time)], as the state it leaves; [movMatrix] is
    what the frame hands to the shader. *)
Definition animate (st : state) (time : number) : state :=
  let dt := sub time (oldTime st) in
  let m := rotateX (movMatrix st) (mul dt (lit 2 1000)) in
  let m := rotateY m (mul dt (lit 2 1000)) in
  State time m.

End Rotation.

End Cube.

(** ** The program *)

Section Program.

(** [vec3.add(out, a, b)], [vec3.normalize(out, a)] and
    [vec4.transformMat4(out, a, m)] of gl-matrix, each as the value it
    writes to [out]. *)
Variable vec3_add : vec3 -> vec3 -> vec3.
Variable vec3_normalize : vec3 -> vec3.
Variable vec4_transformMat4 : vec4 -> mat4 -> vec4.

(** *** The mesh generator *)

(** [refineSphere(v1, v2, v3, depth, vertices, indices)].  The fuel bounds
    the depth of the call stack; [None] is a run that needs more. *)
Fixpoint refineSphere (fuel : nat) (v1 v2 v3 : vec3) (depth : number)
    (b : buffers) : option buffers :=
  match fuel with
  | O => None
  | S fuel' =>
      if strict_eq depth (Fin 0) then
        let indexOffset := div (of_nat (length (vertices b))) (Fin 3) in
        Some (Buffers
                (vertices b ++ spread v1 ++ spread v2 ++ spread v3)
                (indices b ++ [indexOffset;
                               add indexOffset (Fin 1);
                               add indexOffset (Fin 2)]))
      else
        let mid12 := vec3_normalize (vec3_add v1 v2) in
        let mid23 := vec3_normalize (vec3_add v2 v3) in
        let mid31 := vec3_normalize (vec3_add v3 v1) in
        b1 <- refineSphere fuel' v1 mid12 mid31 (sub depth (Fin 1)) b ;;
        b2 <- refineSphere fuel' v2 mid23 mid12 (sub depth (Fin 1)) b1 ;;
        b3 <- refineSphere fuel' v3 mid31 mid23 (sub depth (Fin 1)) b2 ;;
        refineSphere fuel' mid12 mid23 mid31 (sub depth (Fin 1)) b3
  end.

(** The starting vertices of the tetrahedron. *)
Definition initialA : vec3 :=
  vec3_fromValues (lit 0 1) (lit 0 1) (lit (-1) 1).
Definition initialB : vec3 :=
  vec3_fromValues (lit 0 1) (lit 942809 1000000) (lit 333333 1000000).
Definition initialC : vec3 :=
  vec3_fromValues (lit (-816497) 1000000) (lit (-471405) 1000000)
                  (lit 333333 1000000).
Definition initialD : vec3 :=
  vec3_fromValues (lit 816497 1000000) (lit (-471405) 1000000)
                  (lit 333333 1000000).

(** [createSphereBuffers(glContext, recursionLevel = 3)]: the raw
    [vertices] and [indices] it returns; [None] for [recursionLevel] is a
    call without the argument.  The uploads to the GL buffers do not touch
    the two arrays and are left out. *)
Definition createSphereBuffers (fuel : nat) (recursionLevel : option number)
    : option buffers :=
  let recursionLevel :=
    match recursionLevel with Some level => level | None => Fin 3 end in
  b1 <- refineSphere fuel initialA initialB initialC recursionLevel
          empty_buffers ;;
  b2 <- refineSphere fuel initialD initialC initialB recursionLevel b1 ;;
  b3 <- refineSphere fuel initialA initialD initialB recursionLevel b2 ;;
  refineSphere fuel initialA initialC initialD recursionLevel b3.

(** *** The renderer *)

(** [transformVertex(matrix, vertex)] *)
Definition transformVertex (matrix : mat4) (vertex : vec3) : vec3 :=
  let '(x, y, z) := vertex in
  let v := vec4_fromValues x y z (Fin 1) in
  let '(v0, v1, v2, _) := vec4_transformMat4 v matrix in
  (v0, v1, v2).

(** [vec3.fromValues(vertices[idx], vertices[idx + 1], vertices[idx + 2])] *)
Definition fetch_vertex (vertices : list number) (idx : number) : vec3 :=
  vec3_fromValues
    (to_number (array_get vertices idx))
    (to_number (array_get vertices (add idx (Fin 1))))
    (to_number (array_get vertices (add idx (Fin 2)))).

(** One turn of the loop over the indices: the triangle pushed for the
    counter value [i]. *)
Definition triangle_at (modelViewMatrix : mat4)
    (vertices indices : list number) (i : nat) : triangle :=
  let idx0 := mul (to_number (nth_error indices i)) (Fin 3) in
  let idx1 := mul (to_number (nth_error indices (i + 1))) (Fin 3) in
  let idx2 := mul (to_number (nth_error indices (i + 2))) (Fin 3) in
  let v0 := fetch_vertex vertices idx0 in
  let v1 := fetch_vertex vertices idx1 in
  let v2 := fetch_vertex vertices idx2 in
  let '(_, _, z0) := transformVertex modelViewMatrix v0 in
  let '(_, _, z1) := transformVertex modelViewMatrix v1 in
  let '(_, _, z2) := transformVertex modelViewMatrix v2 in
  let avgDepth := div (add (add z0 z1) z2) (Fin 3) in
  Triangle (spread v0 ++ spread v1 ++ spread v2) avgDepth.

(** [for (let i = 0; i < indices.length; i += 3) { ... triangles.push ... }]
    from the counter value [i] on; the fuel bounds the number of turns. *)
Fixpoint build_triangles (fuel : nat) (modelViewMatrix : mat4)
    (vertices indices : list number) (i : nat) (triangles : list triangle)
    : option (list triangle) :=
  if i <? length indices then
    match fuel with
    | O => None
    | S fuel' =>
        build_triangles fuel' modelViewMatrix vertices indices (i + 3)
          (triangles ++ [triangle_at modelViewMatrix vertices indices i])
    end
  else Some triangles.

(** The comparison function [(a, b) => a.avgDepth - b.avgDepth]. *)
Definition compare_depth (a b : triangle) : number :=
  sub (avgDepth a) (avgDepth b).

(** [triangles.sort((a, b) => a.avgDepth - b.avgDepth)] *)
Definition sort_triangles (triangles : list triangle) : list triangle :=
  array_sort compare_depth triangles.

(** [triangles.forEach((tri, index) => { ... })] from position [index] on,
    [len] being [triangles.length]: the draw commands in the order they are
    issued. *)
Fixpoint forEach_draw (len index : nat) (rest : list triangle)
    : list draw_command :=
  match rest with
  | [] => []
  | tri :: rest' =>
      let t := div (of_nat index) (sub (of_nat len) (Fin 1)) in
      let r := t in
      let g := Fin 0 in
      let b := sub (Fin 1) t in
      DrawCommand [r; g; b; Fin 1] (tri_vertices tri)
        :: forEach_draw len (S index) rest'
  end.

Definition draw_triangles (triangles : list triangle) : list draw_command :=
  forEach_draw (length triangles) 0 triangles.

(** One pass of [renderSphere] over [sphereData] with the view matrix
    [modelViewMatrix] that [mat4.lookAt] built from the camera: the draw
    commands of the frame.  Clearing, the uniforms of the two matrices and
    the request for the next frame are left out. *)
Definition renderSphere (fuel : nat) (modelViewMatrix : mat4)
    (sphereData : buffers) : option (list draw_command) :=
  triangles <- build_triangles fuel modelViewMatrix (vertices sphereData)
                 (indices sphereData) 0 [] ;;
  Some (draw_triangles (sort_triangles triangles)).

(** *** Closed forms used in the statements *)

(** The vertex data that a call of [refineSphere] at depth [d] appends:
    the leaves of the subdivision, left to right. *)
Fixpoint leaf_vertices (d : nat) (v1 v2 v3 : vec3) : list number :=
  match d with
  | O => spread v1 ++ spread v2 ++ spread v3
  | S d' =>
      let mid12 := vec3_normalize (vec3_add v1 v2) in
      let mid23 := vec3_normalize (vec3_add v2 v3) in
      let mid31 := vec3_normalize (vec3_add v3 v1) in
      leaf_vertices d' v1 mid12 mid31 ++ leaf_vertices d' v2 mid23 mid12 ++
      leaf_vertices d' v3 mid31 mid23 ++ leaf_vertices d' mid12 mid23 mid31
  end.

(** The same leaves as a sequence of points, three for each leaf. *)
Fixpoint leaf_points (d : nat) (v1 v2 v3 : vec3) : list vec3 :=
  match d with
  | O => [v1; v2; v3]
  | S d' =>
      let mid12 := vec3_normalize (vec3_add v1 v2) in
      let mid23 := vec3_normalize (vec3_add v2 v3) in
      let mid31 := vec3_normalize (vec3_add v3 v1) in
      leaf_points d' v1 mid12 mid31 ++ leaf_points d' v2 mid23 mid12 ++
      leaf_points d' v3 mid31 mid23 ++ leaf_points d' mid12 mid23 mid31
  end.

(** A point is a corner of the tetrahedron or comes out of
    [vec3.normalize]. *)
Definition base_or_normalized (p : vec3) : Prop :=
  In p [initialA; initialB; initialC; initialD] \/
  exists a b, p = vec3_normalize (vec3_add a b).

(** The three indices pushed by a leaf that finds [len] numbers in
    [vertices]. *)
Definition index_triple (len : nat) : list number :=
  let indexOffset := div (of_nat len) (Fin 3) in
  [indexOffset; add indexOffset (Fin 1); add indexOffset (Fin 2)].

(** The indices pushed by [count] leaves in a row, the first of which finds
    [len] numbers in [vertices]. *)
Definition leaf_indices (len count : nat) : list number :=
  flat_map (fun j => index_triple (len + 9 * j)) (seq 0 count).

(** The coordinates of vertex number [i] of a flat vertex array. *)
Definition vertex_at (vs : list number) (i : nat) : list number :=
  [nth (3 * i) vs NaN; nth (3 * i + 1) vs NaN; nth (3 * i + 2) vs NaN].

(** The index array that lists the triangles [tris], three indices each. *)
Definition index_array (tris : list (nat * nat * nat)) : list number :=
  map of_nat (flat_map (fun '(i0, i1, i2) => [i0; i1; i2]) tris).

(** The nine coordinates of the triangle with corners [i0], [i1], [i2]. *)
Definition mesh_triangle (vs : list number) (t : nat * nat * nat)
    : list number :=
  let '(i0, i1, i2) := t in
  vertex_at vs i0 ++ vertex_at vs i1 ++ vertex_at vs i2.

(** The triangles of the mesh with vertex array [vs] and index array
    [index_array tris], in the order of the index array. *)
Definition mesh_triangles (vs : list number) (tris : list (nat * nat * nat))
    : list (list number) :=
  map (mesh_triangle vs) tris.

(** The index triples [(s, s+1, s+2)], [(s+3, s+4, s+5)], ... of [count]
    triangles that share no vertex. *)
Fixpoint consecutive_triples (s count : nat) : list (nat * nat * nat) :=
  match count with
  | O => []
  | S c => (s, s + 1, s + 2) :: consecutive_triples (s + 3) c
  end.

(** The number of [vec3] entries of the flat vertex array, as the leaf case
    of [refineSphere] counts them: [vertices.length / 3]. *)
Definition vertex_count (b : buffers) : nat := length (vertices b) / 3.

(** The number of triangles of an index array. *)
Definition triangle_count (b : buffers) : nat := length (indices b) / 3.

(** The vertex data that [refineSphere] itself leaves in [vertices] when it
    is called at depth [d] on two empty arrays. *)
Definition run_vertices (d : nat) (v1 v2 v3 : vec3) : list number :=
  match refineSphere (S d) v1 v2 v3 (of_nat d) empty_buffers with
  | Some b => vertices b
  | None => []
  end.

(** A triangle whose [avgDepth] is a number of the number line. *)
Definition has_depth (t : triangle) : Prop := is_nan (avgDepth t) = false.

(** A sequence of triangles in non-decreasing order of [avgDepth]. *)
Definition depth_sorted (l : list triangle) : Prop :=
  StronglySorted (fun a b => le (avgDepth a) (avgDepth b)) l.

(** The triangles of [l] whose [avgDepth] is [k], in the order of [l]. *)
Definition with_depth (k : number) (l : list triangle) : list triangle :=
  filter (fun t => same (avgDepth t) k) l.

(** [new Uint16Array(indices)]: the data that [createSphereBuffers] hands
    to the element array buffer. *)
Definition Uint16Array (array : list number) : list Z := map to_uint16 array.

(** The leaves of the subdivision as triangles of nine coordinates. *)
Fixpoint leaf_triangles (d : nat) (v1 v2 v3 : vec3) : list (list number) :=
  match d with
  | O => [spread v1 ++ spread v2 ++ spread v3]
  | S d' =>
      let mid12 := vec3_normalize (vec3_add v1 v2) in
      let mid23 := vec3_normalize (vec3_add v2 v3) in
      let mid31 := vec3_normalize (vec3_add v3 v1) in
      leaf_triangles d' v1 mid12 mid31 ++ leaf_triangles d' v2 mid23 mid12 ++
      leaf_triangles d' v3 mid31 mid23 ++ leaf_triangles d' mid12 mid23 mid31
  end.

(** The colour of position [k] in a frame of [n] triangles. *)
Definition gradient (n k : nat) : list number :=
  let t := div (of_nat k) (sub (of_nat n) (Fin 1)) in
  [t; Fin 0; sub (Fin 1) t; Fin 1].

(** ** Arithmetic of integer-valued numbers *)

Lemma Qred_integer (z : Z) : Qred (z # 1) = z # 1.
Proof.
  unfold Qred.
  generalize (Z.ggcd_gcd z 1) (Z.ggcd_correct_divisors z 1).
  destruct (Z.ggcd z 1) as [g [a b]]. cbn [fst snd].
  rewrite Z.gcd_1_r. intros -> [Ha Hb].
  replace a with z by lia. replace b with 1%Z by lia. reflexivity.
Qed.

Lemma fin_of_Z (q : Q) (z : Z) : (q == z # 1)%Q -> fin q = Fin (z # 1).
Proof.
  intros H. unfold fin. f_equal.
  rewrite (Qred_complete _ _ H).
  apply Qred_integer.
Qed.

Lemma strict_eq_of_nat_0 (d : nat) :
  strict_eq (of_nat d) (Fin 0) = (d =? 0)%nat.
Proof.
  destruct d as [|d]; [reflexivity|].
  unfold strict_eq, of_nat, Qeq_bool. cbn [Qnum Qden].
  rewrite Z.mul_1_r. cbn [Z.mul Nat.eqb].
  apply Z.eqb_neq. lia.
Qed.

Lemma sub_of_nat_S (d : nat) : sub (of_nat (S d)) (Fin 1) = of_nat d.
Proof.
  unfold sub, of_nat. apply fin_of_Z.
  unfold Qeq, Qminus, Qplus, Qopp. cbn [Qnum Qden]. lia.
Qed.

Lemma add_of_nat (m n : nat) : add (of_nat m) (of_nat n) = of_nat (m + n).
Proof.
  unfold add, of_nat. apply fin_of_Z.
  unfold Qeq, Qplus. cbn [Qnum Qden]. lia.
Qed.

Lemma mul_of_nat (m n : nat) : mul (of_nat m) (of_nat n) = of_nat (m * n).
Proof.
  unfold mul, of_nat. apply fin_of_Z.
  unfold Qeq, Qmult. cbn [Qnum Qden]. lia.
Qed.

Lemma div_of_nat_3 (m : nat) : div (of_nat (3 * m)) (Fin 3) = of_nat m.
Proof.
  unfold div, of_nat. cbn [iszero Qnum Z.eqb].
  apply fin_of_Z.
  unfold Qeq, Qdiv, Qmult, Qinv. cbn [Qnum Qden]. lia.
Qed.


(** ** One call of [refineSphere] *)

Lemma refineSphere_leaf fuel v1 v2 v3 b :
  refineSphere (S fuel) v1 v2 v3 (Fin 0) b =
  Some (Buffers (vertices b ++ spread v1 ++ spread v2 ++ spread v3)
                (indices b ++ index_triple (length (vertices b)))).
Proof. reflexivity. Qed.

Lemma refineSphere_node fuel v1 v2 v3 d b :
  refineSphere (S fuel) v1 v2 v3 (of_nat (S d)) b =
  let mid12 := vec3_normalize (vec3_add v1 v2) in
  let mid23 := vec3_normalize (vec3_add v2 v3) in
  let mid31 := vec3_normalize (vec3_add v3 v1) in
  b1 <- refineSphere fuel v1 mid12 mid31 (of_nat d) b ;;
  b2 <- refineSphere fuel v2 mid23 mid12 (of_nat d) b1 ;;
  b3 <- refineSphere fuel v3 mid31 mid23 (of_nat d) b2 ;;
  refineSphere fuel mid12 mid23 mid31 (of_nat d) b3.
Proof.
  cbn [refineSphere].
  rewrite strict_eq_of_nat_0, sub_of_nat_S. reflexivity.
Qed.

Lemma spread_length v : length (spread v) = 3.
Proof. now destruct v as [[x y] z]. Qed.

Lemma leaf_vertices_length d : forall v1 v2 v3,
  length (leaf_vertices d v1 v2 v3) = 9 * 4 ^ d.
Proof.
  induction d as [|d IH]; intros v1 v2 v3.
  - cbn [leaf_vertices]. rewrite !length_app, !spread_length. reflexivity.
  - cbn [leaf_vertices]. rewrite !length_app, !IH.
    rewrite Nat.pow_succ_r'. lia.
Qed.

Lemma index_triple_length len : length (index_triple len) = 3.
Proof. reflexivity. Qed.

Lemma leaf_indices_length len count :
  length (leaf_indices len count) = 3 * count.
Proof.
  unfold leaf_indices. generalize 0 at 2.
  induction count as [|c IH]; intros s; [reflexivity|].
  cbn [seq flat_map]. rewrite length_app, IH, index_triple_length. lia.
Qed.

Lemma leaf_indices_shift len a c : forall s,
  flat_map (fun j => index_triple (len + 9 * j)) (seq (a + s) c) =
  flat_map (fun j => index_triple (len + 9 * a + 9 * j)) (seq s c).
Proof.
  induction c as [|c IH]; intros s; [reflexivity|].
  cbn [seq flat_map]. rewrite <- Nat.add_succ_r, IH.
  do 2 f_equal. lia.
Qed.

Lemma leaf_indices_app len a c :
  leaf_indices len (a + c) = leaf_indices len a ++ leaf_indices (len + 9 * a) c.
Proof.
  unfold leaf_indices.
  rewrite seq_app, flat_map_app. f_equal.
  rewrite <- (leaf_indices_shift len a c 0). now rewrite Nat.add_0_r.
Qed.

Lemma leaf_indices_1 len : leaf_indices len 1 = index_triple len.
Proof.
  unfold leaf_indices. cbn [seq flat_map].
  rewrite app_nil_r. do 2 f_equal. lia.
Qed.

(** What a call at depth [d] does to the two arrays, for any contents they
    had: with a call stack of [d + 1] frames or more it returns, having
    appended the leaves and their indices. *)
Lemma refineSphere_spec d : forall k v1 v2 v3 b,
  refineSphere (S d + k) v1 v2 v3 (of_nat d) b =
  Some (Buffers (vertices b ++ leaf_vertices d v1 v2 v3)
                (indices b ++ leaf_indices (length (vertices b)) (4 ^ d))).
Proof.
  induction d as [|d IH]; intros k v1 v2 v3 b.
  - cbn [Nat.add]. change (of_nat 0) with (Fin 0).
    rewrite refineSphere_leaf. cbn [Nat.pow leaf_vertices].
    now rewrite leaf_indices_1.
  - change (S (S d) + k) with (S (S d + k)).
    rewrite refineSphere_node. cbv zeta.
    rewrite !IH. cbn [vertices indices leaf_vertices].
    rewrite !length_app, !leaf_vertices_length.
    f_equal. f_equal.
    + now rewrite <- !app_assoc.
    + rewrite <- !app_assoc. f_equal.
      replace (4 ^ S d) with (4 ^ d + (4 ^ d + (4 ^ d + 4 ^ d)))
        by (rewrite Nat.pow_succ_r'; lia).
      rewrite !leaf_indices_app. repeat f_equal; lia.
Qed.

(** A call stack of [d] frames or fewer is not enough at depth [d]. *)
Lemma refineSphere_needs_stack fuel : forall d v1 v2 v3 b,
  fuel <= d -> refineSphere fuel v1 v2 v3 (of_nat d) b = None.
Proof.
  induction fuel as [|fuel IH]; intros d v1 v2 v3 b Hle; [reflexivity|].
  destruct d as [|d]; [lia|].
  rewrite refineSphere_node. cbv zeta. rewrite IH by lia. reflexivity.
Qed.

(** A negative depth never reaches the test [depth === 0]: no call stack
    is deep enough. *)
Lemma refineSphere_negative_depth fuel : forall p v1 v2 v3 b,
  refineSphere fuel v1 v2 v3 (Fin (Zneg p # 1)) b = None.
Proof.
  induction fuel as [|fuel IH]; intros p v1 v2 v3 b; [reflexivity|].
  cbn [refineSphere].
  replace (strict_eq (Fin (Z.neg p # 1)) (Fin 0)) with false by reflexivity.
  replace (sub (Fin (Z.neg p # 1)) (Fin 1)) with (Fin (Zneg (p + 1) # 1)).
  - now rewrite IH.
  - symmetry. unfold sub. apply fin_of_Z.
    unfold Qeq, Qminus, Qplus, Qopp. cbn [Qnum Qden]. lia.
Qed.

Lemma run_vertices_leaf d v1 v2 v3 :
  run_vertices d v1 v2 v3 = leaf_vertices d v1 v2 v3.
Proof.
  unfold run_vertices.
  rewrite <- (Nat.add_0_r (S d)), refineSphere_spec. reflexivity.
Qed.

(** ** The whole mesh *)

Lemma createSphereBuffers_spec d k :
  createSphereBuffers (S d + k) (Some (of_nat d)) =
  Some (Buffers
          (leaf_vertices d initialA initialB initialC ++
           leaf_vertices d initialD initialC initialB ++
           leaf_vertices d initialA initialD initialB ++
           leaf_vertices d initialA initialC initialD)
          (leaf_indices 0 (4 * 4 ^ d))).
Proof.
  unfold createSphereBuffers. cbv zeta.
  rewrite !refineSphere_spec. cbn [vertices indices empty_buffers app length].
  rewrite !length_app, !leaf_vertices_length.
  f_equal. f_equal.
  - now rewrite <- !app_assoc.
  - rewrite <- !app_assoc.
    replace (4 * 4 ^ d) with (4 ^ d + (4 ^ d + (4 ^ d + 4 ^ d))) by lia.
    rewrite !leaf_indices_app. repeat f_equal; lia.
Qed.

(** Without the argument the level is 3. *)
Lemma createSphereBuffers_default fuel :
  createSphereBuffers fuel None = createSphereBuffers fuel (Some (of_nat 3)).
Proof. reflexivity. Qed.

(** Depth 0: the four faces as they stand. *)
Example createSphereBuffers_depth_0 k :
  createSphereBuffers (1 + k) (Some (Fin 0)) =
  Some (Buffers
          [Fin 0; Fin 0; Fin (-1);
           Fin 0; Fin (942809 # 1000000); Fin (333333 # 1000000);
           Fin (-816497 # 1000000); Fin (-94281 # 200000);
           Fin (333333 # 1000000);
           Fin (816497 # 1000000); Fin (-94281 # 200000);
           Fin (333333 # 1000000);
           Fin (-816497 # 1000000); Fin (-94281 # 200000);
           Fin (333333 # 1000000);
           Fin 0; Fin (942809 # 1000000); Fin (333333 # 1000000);
           Fin 0; Fin 0; Fin (-1);
           Fin (816497 # 1000000); Fin (-94281 # 200000);
           Fin (333333 # 1000000);
           Fin 0; Fin (942809 # 1000000); Fin (333333 # 1000000);
           Fin 0; Fin 0; Fin (-1);
           Fin (-816497 # 1000000); Fin (-94281 # 200000);
           Fin (333333 # 1000000);
           Fin (816497 # 1000000); Fin (-94281 # 200000);
           Fin (333333 # 1000000)]
          [Fin 0; Fin 1; Fin 2; Fin 3; Fin 4; Fin 5;
           Fin 6; Fin 7; Fin 8; Fin 9; Fin 10; Fin 11]).
Proof. reflexivity. Qed.

Lemma index_triple_of_count m :
  index_triple (3 * m) = [of_nat m; of_nat (m + 1); of_nat (m + 2)].
Proof.
  unfold index_triple. cbv zeta. rewrite div_of_nat_3.
  change (Fin 1) with (of_nat 1). change (Fin 2) with (of_nat 2).
  now rewrite !add_of_nat.
Qed.

Lemma leaf_indices_of_count m count :
  leaf_indices (3 * m) count = map of_nat (seq m (3 * count)).
Proof.
  revert m. induction count as [|c IH]; intros m; [reflexivity|].
  change (S c) with (1 + c).
  rewrite leaf_indices_app, leaf_indices_1, index_triple_of_count.
  replace (3 * m + 9 * 1) with (3 * (m + 3)) by lia. rewrite IH.
  replace (3 * (1 + c)) with (3 + 3 * c) by lia.
  rewrite seq_app, map_app. cbn [seq map].
  now rewrite !Nat.add_1_r, (Nat.add_comm m 2), (Nat.add_comm m 3).
Qed.

Lemma flat_map_spread_length (vs : list vec3) :
  length (flat_map spread vs) = 3 * length vs.
Proof.
  induction vs as [|v vs IH]; [reflexivity|].
  cbn [flat_map]. rewrite length_app, spread_length, IH. cbn [length]. lia.
Qed.

(** ** Where the vertices come from *)

Lemma leaf_vertices_points d : forall v1 v2 v3,
  leaf_vertices d v1 v2 v3 = flat_map spread (leaf_points d v1 v2 v3).
Proof.
  induction d as [|d IH]; intros v1 v2 v3.
  - cbn [leaf_vertices leaf_points flat_map]. now rewrite app_nil_r.
  - cbn [leaf_vertices leaf_points]. now rewrite !flat_map_app, !IH.
Qed.

Lemma leaf_points_origin d : forall v1 v2 v3 p,
  In p (leaf_points d v1 v2 v3) ->
  In p [v1; v2; v3] \/ exists a b, p = vec3_normalize (vec3_add a b).
Proof.
  induction d as [|d IH]; intros v1 v2 v3 p Hp; [now left|].
  cbn [leaf_points] in Hp. rewrite !in_app_iff in Hp.
  destruct Hp as [Hp|[Hp|[Hp|Hp]]]; apply IH in Hp;
    destruct Hp as [Hp|Hp]; try (right; exact Hp);
    cbn [In] in Hp; intuition (subst; cbn [In]; eauto).
Qed.

(** Every vertex of a generated mesh is one of the four corners of the
    tetrahedron or a value returned by [vec3.normalize]. *)
Lemma createSphereBuffers_points d k :
  exists b pts,
    createSphereBuffers (S d + k) (Some (of_nat d)) = Some b /\
    vertices b = flat_map spread pts /\
    Forall base_or_normalized pts.
Proof.
  eexists. exists (leaf_points d initialA initialB initialC ++
                   leaf_points d initialD initialC initialB ++
                   leaf_points d initialA initialD initialB ++
                   leaf_points d initialA initialC initialD).
  split; [apply createSphereBuffers_spec|]. cbn [vertices]. split.
  - now rewrite !flat_map_app, !leaf_vertices_points.
  - apply Forall_forall. intros p Hp. rewrite !in_app_iff in Hp.
    unfold base_or_normalized.
    destruct Hp as [Hp|[Hp|[Hp|Hp]]]; apply leaf_points_origin in Hp;
      destruct Hp as [Hp|Hp]; try (right; exact Hp);
      left; cbn [In] in *; intuition.
Qed.

(** ** Vertices near the unit sphere *)

Section Geometry.

Unset Implicit Arguments.

Local Open Scope Q_scope.

Lemma mul_bound x c e C :
  - e <= x -> x <= e -> - C <= c -> c <= C ->
  - (e * C) <= x * c /\ x * c <= e * C.
Proof. intros. split; nra. Qed.

Lemma dot_err e C a b c :
  close e a b -> within C c ->
  - (3 * e * C) <= qdot a c - qdot b c /\ qdot a c - qdot b c <= 3 * e * C.
Proof.
  destruct a as [[a0 a1] a2], b as [[b0 b1] b2], c as [[c0 c1] c2].
  unfold close, within, qdot.
  intros [[A0 A0'] [[A1 A1'] [A2 A2']]] [[C0 C0'] [[C1 C1'] [C2 C2']]].
  pose proof (mul_bound _ _ _ _ A0 A0' C0 C0').
  pose proof (mul_bound _ _ _ _ A1 A1' C1 C1').
  pose proof (mul_bound _ _ _ _ A2 A2' C2 C2').
  split; lra.
Qed.

Lemma within_of_norm H C a :
  qdot a a <= H -> 0 <= C -> H <= C * C -> within C a.
Proof.
  destruct a as [[a0 a1] a2]. unfold within, qdot. intros.
  repeat split; nra.
Qed.

Lemma qdot_comm a b : qdot a b == qdot b a.
Proof. destruct a as [[? ?] ?], b as [[? ?] ?]. unfold qdot. ring. Qed.

Lemma qdot_add_l a b c : qdot (qadd a b) c == qdot a c + qdot b c.
Proof.
  destruct a as [[? ?] ?], b as [[? ?] ?], c as [[? ?] ?].
  unfold qdot, qadd. ring.
Qed.

Lemma qdot_scale_l s a c : qdot (qscale s a) c == s * qdot a c.
Proof.
  destruct a as [[? ?] ?], c as [[? ?] ?]. unfold qdot, qscale. ring.
Qed.

Lemma unitish_within q : unitish q -> within (101 # 100) q.
Proof.
  intros [_ H]. apply within_of_norm with (H := hi); trivial;
    unfold hi; lra.
Qed.

Lemma within_add C D a b :
  within C a -> within D b -> within (C + D) (qadd a b).
Proof.
  destruct a as [[? ?] ?], b as [[? ?] ?]. unfold within, qadd.
  intros [[? ?] [[? ?] [? ?]]] [[? ?] [[? ?] [? ?]]]. repeat split; lra.
Qed.

Lemma within_close e C a b : close e a b -> within C b -> within (C + e) a.
Proof.
  destruct a as [[? ?] ?], b as [[? ?] ?]. unfold within, close.
  intros [[? ?] [[? ?] [? ?]]] [[? ?] [[? ?] [? ?]]]. repeat split; lra.
Qed.

Lemma within_weaken C D a : C <= D -> within C a -> within D a.
Proof.
  destruct a as [[? ?] ?]. unfold within.
  intros ? [[? ?] [[? ?] [? ?]]]. repeat split; lra.
Qed.

(** The sum of two vertices, as computed, is far from zero. *)
Lemma sum_facts q1 q2 a :
  unitish q1 -> unitish q2 -> dmin <= qdot q1 q2 ->
  close eps a (qadd q1 q2) ->
  (13 # 10) <= qdot a a /\ within (203 # 100) a.
Proof.
  intros U1 U2 D Ha.
  pose proof (unitish_within _ U1) as W1.
  pose proof (unitish_within _ U2) as W2.
  pose proof (within_add _ _ _ _ W1 W2) as Wu.
  assert (Wa : within (203 # 100) a).
  { apply within_weaken with ((101 # 100) + (101 # 100) + eps);
      [unfold eps; lra|]. eapply within_close; eauto. }
  split; trivial.
  pose proof (dot_err _ _ _ _ _ Ha Wa) as E1.
  pose proof (dot_err _ _ _ _ _ Ha Wu) as E2.
  pose proof (qdot_comm (qadd q1 q2) a) as C1.
  pose proof (qdot_add_l q1 q2 (qadd q1 q2)) as S1.
  pose proof (qdot_comm q1 (qadd q1 q2)) as C2.
  pose proof (qdot_comm q2 (qadd q1 q2)) as C3.
  pose proof (qdot_add_l q1 q2 q1) as S2.
  pose proof (qdot_add_l q1 q2 q2) as S3.
  pose proof (qdot_comm q2 q1) as C4.
  destruct U1 as [U1 _], U2 as [U2 _].
  unfold eps, lo, dmin in *. lra.
Qed.

Lemma scale_le_1 s L :
  0 < s -> (13 # 10) <= L -> s * s * L <= 1 + eps -> s <= 1.
Proof. unfold eps. intros. nra. Qed.

Lemma scaled_within s a :
  0 < s -> s * s * qdot a a <= 1 + eps -> within (1001 # 1000) (qscale s a).
Proof.
  intros Hs H. apply within_of_norm with (H := 1 + eps).
  - rewrite qdot_scale_l, (qdot_comm a), qdot_scale_l. lra.
  - lra.
  - unfold eps. lra.
Qed.

Lemma close_comm_add a q1 q2 :
  close eps a (qadd q1 q2) -> close eps a (qadd q2 q1).
Proof.
  destruct a as [[? ?] ?], q1 as [[? ?] ?], q2 as [[? ?] ?].
  unfold close, qadd. intros [[? ?] [[? ?] [? ?]]]. repeat split; lra.
Qed.

Lemma mid_of_sym q1 q2 m : mid_of q1 q2 m -> mid_of q2 q1 m.
Proof.
  intros (s & a & Ha & Hs & L1 & L2 & Hm).
  exists s, a. repeat split; trivial; now apply close_comm_add.
Qed.

(** A midpoint is within the tolerance of the unit sphere. *)
Lemma mid_unitish q1 q2 m :
  unitish q1 -> unitish q2 -> dmin <= qdot q1 q2 -> mid_of q1 q2 m ->
  unitish m.
Proof.
  intros U1 U2 D (s & a & Ha & Hs & L1 & L2 & Hm).
  pose proof (scaled_within _ _ Hs L2) as Wsa.
  assert (Wm : within (101 # 100) m).
  { apply within_weaken with ((1001 # 1000) + eps); [unfold eps; lra|].
    eapply within_close; eauto. }
  pose proof (dot_err _ _ _ _ _ Hm Wm) as E1.
  pose proof (dot_err _ _ _ _ _ Hm Wsa) as E2.
  pose proof (qdot_comm (qscale s a) m) as C1.
  pose proof (qdot_scale_l s a (qscale s a)) as S1.
  pose proof (qdot_comm a (qscale s a)) as C2.
  pose proof (qdot_scale_l s a a) as S2.
  unfold unitish, eps, lo, hi in *. split; nra.
Qed.

(** A midpoint and an end of its edge. *)
Lemma mid_dot_end q1 q2 m :
  unitish q1 -> unitish q2 -> dmin <= qdot q1 q2 -> mid_of q1 q2 m ->
  dmin <= qdot q1 m.
Proof.
  intros U1 U2 D (s & a & Ha & Hs & L1 & L2 & Hm).
  pose proof (unitish_within _ U1) as W1.
  pose proof (dot_err _ _ _ _ _ Hm W1) as E1.
  pose proof (dot_err _ _ _ _ _ Ha W1) as E2.
  pose proof (qdot_scale_l s a q1) as S1.
  pose proof (qdot_add_l q1 q2 q1) as S2.
  pose proof (qdot_comm q2 q1) as C1.
  pose proof (qdot_comm q1 m) as C2.
  destruct U1 as [U1 _].
  assert (P : (6 # 10) <= qdot a q1) by (unfold eps, lo, dmin in *; lra).
  assert (P' : 0 <= s * qdot a q1) by nra.
  unfold eps, dmin in *. lra.
Qed.

Lemma scale_ge s X c :
  0 < s -> s <= 1 -> 0 <= c -> - c <= X -> - c <= s * X.
Proof. intros. nra. Qed.

(** The midpoints of two edges that share the vertex [u]. *)
Lemma mid_dot_mid u w x m m' :
  unitish u -> unitish w -> unitish x ->
  dmin <= qdot u w -> dmin <= qdot u x -> dmin <= qdot w x ->
  mid_of u w m -> mid_of u x m' ->
  dmin <= qdot m m'.
Proof.
  intros Uu Uw Ux Duw Dux Dwx Hm Hm'.
  pose proof (mid_unitish _ _ _ Uu Ux Dux Hm') as Um'.
  destruct Hm as (s & a & Ha & Hs & L1 & L2 & Hm).
  destruct Hm' as (s' & a' & Ha' & Hs' & L1' & L2' & Hm').
  destruct (sum_facts _ _ _ Uu Uw Duw Ha) as [La Wa].
  destruct (sum_facts _ _ _ Uu Ux Dux Ha') as [La' Wa'].
  pose proof (scale_le_1 _ _ Hs La L2) as Hs1.
  pose proof (scale_le_1 _ _ Hs' La' L2') as Hs1'.
  pose proof (unitish_within _ Um') as Wm'.
  pose proof (within_add _ _ _ _ (unitish_within _ Uu) (unitish_within _ Ux))
    as Wux.
  (* a' . a *)
  pose proof (dot_err _ _ _ _ _ Ha' Wa) as E1.
  pose proof (dot_err _ _ _ _ _ Ha Wux) as E2.
  pose proof (qdot_comm (qadd u x) a) as C1.
  pose proof (qdot_add_l u w (qadd u x)) as S1.
  pose proof (qdot_comm u (qadd u x)) as C2.
  pose proof (qdot_comm w (qadd u x)) as C3.
  pose proof (qdot_add_l u x u) as S2.
  pose proof (qdot_add_l u x w) as S3.
  pose proof (qdot_comm x u) as C4.
  pose proof (qdot_comm x w) as C5.
  pose proof (qdot_comm u w) as C6.
  assert (P1 : - (21 # 1000) <= qdot a' a).
  { destruct Uu as [Uu _]. unfold eps, lo, dmin in *. lra. }
  clear E1 E2 C1 S1 C2 C3 S2 S3 C4 C5 C6.
  (* a . m' *)
  pose proof (dot_err _ _ _ _ _ Hm' Wa) as E3.
  pose proof (qdot_scale_l s' a' a) as S4.
  pose proof (qdot_comm m' a) as C7.
  assert (Q1 : - (21 # 1000) <= s' * qdot a' a)
    by (apply scale_ge; trivial; lra).
  assert (P2 : - (22 # 1000) <= qdot a m') by (unfold eps in *; lra).
  clear E3 S4 C7 Q1 P1.
  (* m . m' *)
  pose proof (dot_err _ _ _ _ _ Hm Wm') as E4.
  pose proof (qdot_scale_l s a m') as S5.
  assert (Q2 : - (22 # 1000) <= s * qdot a m')
    by (apply scale_ge; trivial; lra).
  unfold eps, dmin in *. lra.
Qed.

Lemma dmin_comm a b : dmin <= qdot a b -> dmin <= qdot b a.
Proof. intros H. now rewrite qdot_comm. Qed.

(** The four triangles of a refinement step are good when the triangle
    is. *)
Lemma good_children q1 q2 q3 m12 m23 m31 :
  good_triangle q1 q2 q3 ->
  mid_of q1 q2 m12 -> mid_of q2 q3 m23 -> mid_of q3 q1 m31 ->
  good_triangle q1 m12 m31 /\ good_triangle q2 m23 m12 /\
  good_triangle q3 m31 m23 /\ good_triangle m12 m23 m31.
Proof.
  intros (U1 & U2 & U3 & D12 & D23 & D31) M12 M23 M31.
  pose proof (dmin_comm _ _ D12) as D21.
  pose proof (dmin_comm _ _ D23) as D32.
  pose proof (dmin_comm _ _ D31) as D13.
  pose proof (mid_of_sym _ _ _ M12) as M21.
  pose proof (mid_of_sym _ _ _ M23) as M32.
  pose proof (mid_of_sym _ _ _ M31) as M13.
  pose proof (mid_unitish _ _ _ U1 U2 D12 M12) as V12.
  pose proof (mid_unitish _ _ _ U2 U3 D23 M23) as V23.
  pose proof (mid_unitish _ _ _ U3 U1 D31 M31) as V31.
  unfold good_triangle. repeat split; try apply V12; try apply V23;
    try apply V31; try apply U1; try apply U2; try apply U3.
  - exact (mid_dot_end _ _ _ U1 U2 D12 M12).
  - exact (mid_dot_mid _ _ _ _ _ U1 U2 U3 D12 D13 D23 M12 M13).
  - exact (dmin_comm _ _ (mid_dot_end _ _ _ U1 U3 D13 M13)).
  - exact (mid_dot_end _ _ _ U2 U3 D23 M23).
  - exact (mid_dot_mid _ _ _ _ _ U2 U3 U1 D23 D21 D31 M23 M21).
  - exact (dmin_comm _ _ (mid_dot_end _ _ _ U2 U1 D21 M21)).
  - exact (mid_dot_end _ _ _ U3 U1 D31 M31).
  - exact (mid_dot_mid _ _ _ _ _ U3 U1 U2 D31 D32 D12 M31 M32).
  - exact (dmin_comm _ _ (mid_dot_end _ _ _ U3 U2 D32 M32)).
  - exact (mid_dot_mid _ _ _ _ _ U2 U1 U3 D21 D23 D13 M21 M23).
  - exact (mid_dot_mid _ _ _ _ _ U3 U2 U1 D32 D31 D21 M32 M31).
  - exact (mid_dot_mid _ _ _ _ _ U1 U3 U2 D13 D12 D32 M13 M12).
Qed.

(** What the program computes for the midpoint of an edge of a good
    triangle, when the two gl-matrix operations are accurate. *)
Lemma midpoint_accurate p1 p2 q1 q2 :
  accurate_add vec3_add -> accurate_normalize vec3_normalize ->
  val p1 = Some q1 -> val p2 = Some q2 ->
  unitish q1 -> unitish q2 -> dmin <= qdot q1 q2 ->
  exists m, val (vec3_normalize (vec3_add p1 p2)) = Some m /\ mid_of q1 q2 m.
Proof.
  intros Hadd Hnorm V1 V2 U1 U2 D.
  assert (W : forall q, unitish q -> within 2 q).
  { intros q U. apply within_weaken with (101 # 100); [lra|].
    now apply unitish_within. }
  destruct (Hadd p1 p2 q1 q2 V1 V2 (W _ U1) (W _ U2)) as (a & Va & Ha).
  destruct (sum_facts _ _ _ U1 U2 D Ha) as [La Wa].
  destruct (Hnorm _ a Va) as (s & m & Vm & Hs & L1 & L2 & Hm).
  - lra.
  - apply within_weaken with (203 # 100); [lra|assumption].
  - exists m. split; trivial. now exists s, a.
Qed.

Lemma leaf_points_near_unit :
  accurate_add vec3_add -> accurate_normalize vec3_normalize ->
  forall d p1 p2 p3 q1 q2 q3,
    val p1 = Some q1 -> val p2 = Some q2 -> val p3 = Some q3 ->
    good_triangle q1 q2 q3 ->
    Forall near_unit (leaf_points d p1 p2 p3).
Proof.
  intros Hadd Hnorm.
  induction d as [|d IH]; intros p1 p2 p3 q1 q2 q3 V1 V2 V3 G.
  - destruct G as (U1 & U2 & U3 & _).
    cbn [leaf_points]. unfold near_unit.
    repeat constructor; [rewrite V1|rewrite V2|rewrite V3]; assumption.
  - pose proof G as (U1 & U2 & U3 & D12 & D23 & D31).
    destruct (midpoint_accurate p1 p2 _ _ Hadd Hnorm V1 V2 U1 U2 D12)
      as (m12 & V12 & M12).
    destruct (midpoint_accurate p2 p3 _ _ Hadd Hnorm V2 V3 U2 U3 D23)
      as (m23 & V23 & M23).
    destruct (midpoint_accurate p3 p1 _ _ Hadd Hnorm V3 V1 U3 U1 D31)
      as (m31 & V31 & M31).
    destruct (good_children _ _ _ _ _ _ G M12 M23 M31) as (G1 & G2 & G3 & G4).
    cbn [leaf_points]. rewrite !Forall_app. repeat split.
    + exact (IH _ _ _ _ _ _ V1 V12 V31 G1).
    + exact (IH _ _ _ _ _ _ V2 V23 V12 G2).
    + exact (IH _ _ _ _ _ _ V3 V31 V23 G3).
    + exact (IH _ _ _ _ _ _ V12 V23 V31 G4).
Qed.

(** The four faces of the tetrahedron are good triangles. *)
Lemma base_faces_good :
  exists qA qB qC qD,
    val initialA = Some qA /\ val initialB = Some qB /\
    val initialC = Some qC /\ val initialD = Some qD /\
    good_triangle qA qB qC /\ good_triangle qD qC qB /\
    good_triangle qA qD qB /\ good_triangle qA qC qD.
Proof.
  do 4 eexists. repeat split; try reflexivity; vm_compute; discriminate.
Qed.

End Geometry.

Set Implicit Arguments.

(** ** Properties of the generator *)

(** C6.  When [vec3.add] and [vec3.normalize] are accurate to [1e-6], every
    vertex of the mesh of any depth is a vector of finite numbers whose
    Euclidean length [l] is within [1e-5] of 1:
    [(1 - 1e-5)^2 <= l^2 <= (1 + 1e-5)^2]. *)
Theorem createSphereBuffers_near_unit :
  accurate_add vec3_add -> accurate_normalize vec3_normalize ->
  forall d k, exists b pts,
    createSphereBuffers (S d + k) (Some (of_nat d)) = Some b /\
    vertices b = flat_map spread pts /\
    Forall near_unit pts.
Proof.
  intros Hadd Hnorm d k.
  destruct base_faces_good
    as (qA & qB & qC & qD & VA & VB & VC & VD & G1 & G2 & G3 & G4).
  eexists. exists (leaf_points d initialA initialB initialC ++
                   leaf_points d initialD initialC initialB ++
                   leaf_points d initialA initialD initialB ++
                   leaf_points d initialA initialC initialD).
  split; [apply createSphereBuffers_spec|]. cbn [vertices]. split.
  - now rewrite !flat_map_app, !leaf_vertices_points.
  - rewrite !Forall_app. repeat split;
      eapply leaf_points_near_unit; eauto.
Qed.

(** C1.  For every depth [d], [createSphereBuffers] at depth [d] returns
    (a call stack of [d + 1] frames is enough) an index array of
    [4 * 4^d * 3] entries and a vertex array that holds three coordinates
    for each index, so that the number of vertices equals the number of
    indices: no vertex is shared.  At depth 0 this is 4 triangles and 12
    vertices, at depth 1 it is 16 triangles and 48 vertices. *)
Theorem createSphereBuffers_sizes :
  (forall d k, exists b,
      createSphereBuffers (S d + k) (Some (of_nat d)) = Some b /\
      length (indices b) = 4 * 4 ^ d * 3 /\
      length (vertices b) = 3 * length (indices b) /\
      vertex_count b = length (indices b)) /\
  (forall k, exists b,
      createSphereBuffers (1 + k) (Some (of_nat 0)) = Some b /\
      triangle_count b = 4 /\ vertex_count b = 12) /\
  (forall k, exists b,
      createSphereBuffers (2 + k) (Some (of_nat 1)) = Some b /\
      triangle_count b = 16 /\ vertex_count b = 48).
Proof.
  assert (sizes : forall d k, exists b,
      createSphereBuffers (S d + k) (Some (of_nat d)) = Some b /\
      length (indices b) = 4 * 4 ^ d * 3 /\
      length (vertices b) = 3 * length (indices b)).
  { intros d k. eexists. split; [apply createSphereBuffers_spec|].
    cbn [vertices indices].
    rewrite leaf_indices_length, !length_app, !leaf_vertices_length. lia. }
  repeat split.
  - intros d k. destruct (sizes d k) as (b & Hb & Hi & Hv).
    exists b. repeat split; trivial.
    unfold vertex_count. rewrite Hv, Nat.mul_comm. now apply Nat.div_mul.
  - intros k. destruct (sizes 0 k) as (b & Hb & Hi & Hv).
    exists b. unfold triangle_count, vertex_count. rewrite Hv, Hi.
    repeat split; trivial.
  - intros k. destruct (sizes 1 k) as (b & Hb & Hi & Hv).
    exists b. unfold triangle_count, vertex_count. rewrite Hv, Hi.
    repeat split; trivial.
Qed.

(** C2.  The vertex array of the mesh is the output of the four base faces
    (A,B,C), (D,C,B), (A,D,B), (A,C,D), one after the other in this order.
    The output of a face, [run_vertices], is what a call of [refineSphere]
    appends to any vertex array.  At depth 0 it is the three corners; at
    depth [d + 1] it is the output, at depth [d], of the four children
    (v1, mid12, mid31), (v2, mid23, mid12), (v3, mid31, mid23),
    (mid12, mid23, mid31) in this order, where each [mid] is the normalized
    sum of the two ends of an edge. *)
Theorem createSphereBuffers_refinement_order :
  (forall d k, exists b,
      createSphereBuffers (S d + k) (Some (of_nat d)) = Some b /\
      vertices b =
        run_vertices d initialA initialB initialC ++
        run_vertices d initialD initialC initialB ++
        run_vertices d initialA initialD initialB ++
        run_vertices d initialA initialC initialD) /\
  (forall d k v1 v2 v3 b, exists b',
      refineSphere (S d + k) v1 v2 v3 (of_nat d) b = Some b' /\
      vertices b' = vertices b ++ run_vertices d v1 v2 v3) /\
  (forall v1 v2 v3,
      run_vertices 0 v1 v2 v3 = spread v1 ++ spread v2 ++ spread v3) /\
  (forall d v1 v2 v3,
      let mid12 := vec3_normalize (vec3_add v1 v2) in
      let mid23 := vec3_normalize (vec3_add v2 v3) in
      let mid31 := vec3_normalize (vec3_add v3 v1) in
      run_vertices (S d) v1 v2 v3 =
        run_vertices d v1 mid12 mid31 ++
        run_vertices d v2 mid23 mid12 ++
        run_vertices d v3 mid31 mid23 ++
        run_vertices d mid12 mid23 mid31).
Proof.
  repeat split.
  - intros d k. eexists. split; [apply createSphereBuffers_spec|].
    now rewrite !run_vertices_leaf.
  - intros d k v1 v2 v3 b. eexists. split; [apply refineSphere_spec|].
    now rewrite run_vertices_leaf.
  - intros d v1 v2 v3. cbv zeta. now rewrite !run_vertices_leaf.
Qed.

(** C7.  A call at depth 0 appends the three corners to the vertex array
    and the triple [(n, n+1, n+2)] to the index array, [n] being the number
    of vertices that the array held before; and the index array of a
    generated mesh is the sequence 0, 1, 2, ... up to its length. *)
Theorem refineSphere_base_case_indices :
  (forall fuel v1 v2 v3 (vs : list vec3) (ixs : list number),
      let n := length vs in
      refineSphere (S fuel) v1 v2 v3 (Fin 0)
        (Buffers (flat_map spread vs) ixs) =
      Some (Buffers (flat_map spread (vs ++ [v1; v2; v3]))
                    (ixs ++ [of_nat n; of_nat (n + 1); of_nat (n + 2)]))) /\
  (forall d k, exists b,
      createSphereBuffers (S d + k) (Some (of_nat d)) = Some b /\
      indices b = map of_nat (seq 0 (length (indices b)))).
Proof.
  split.
  - intros fuel v1 v2 v3 vs ixs n.
    rewrite refineSphere_leaf. cbn [vertices indices].
    rewrite flat_map_spread_length, index_triple_of_count.
    rewrite flat_map_app. cbn [flat_map]. now rewrite app_nil_r.
  - intros d k. eexists. split; [apply createSphereBuffers_spec|].
    cbn [indices]. rewrite leaf_indices_length.
    apply (leaf_indices_of_count 0).
Qed.

(** C8.  For every non-negative integer depth [d] a call of [refineSphere]
    returns: [d + 1] frames of call stack are enough, whatever the triangle
    and the arrays, and [d] frames or fewer are not, each nested call
    running at a depth smaller by one until the depth 0 case returns. *)
Theorem refineSphere_terminates :
  forall d k v1 v2 v3 b,
    (exists b', refineSphere (S d + k) v1 v2 v3 (of_nat d) b = Some b') /\
    refineSphere (d - k) v1 v2 v3 (of_nat d) b = None.
Proof.
  intros d k v1 v2 v3 b. split.
  - eexists. apply refineSphere_spec.
  - apply refineSphere_needs_stack. lia.
Qed.

(** C9, as amended.  A call of [refineSphere] only appends to the two
    arrays: what they held stays in place.  The appended vertex data
    depends on [(v1, v2, v3, depth)] alone; the appended indices depend on
    the depth and on the length that [vertices] had before the call: they
    count up from a third of that length. *)
Theorem refineSphere_frame :
  (forall d k v1 v2 v3 b,
      refineSphere (S d + k) v1 v2 v3 (of_nat d) b =
      Some (Buffers (vertices b ++ leaf_vertices d v1 v2 v3)
                    (indices b ++
                     leaf_indices (length (vertices b)) (4 ^ d)))) /\
  (forall m count,
      leaf_indices (3 * m) count = map of_nat (seq m (3 * count))).
Proof.
  split.
  - intros. apply refineSphere_spec.
  - apply leaf_indices_of_count.
Qed.

(** ** The order of numbers and the comparison function *)

Lemma le_trans (x y z : number) : le x y -> le y z -> le x z.
Proof.
  destruct x as [|[|]|a], y as [|[|]|b], z as [|[|]|c]; cbn; trivial;
    try contradiction.
  apply Qle_trans.
Qed.

Lemma positive_fin (q : Q) :
  ltb (Fin 0) (fin q) = true <-> (0 < q)%Q.
Proof.
  unfold ltb, fin. rewrite negb_true_iff.
  rewrite <- not_true_iff_false, Qle_bool_iff, Qred_correct.
  split; [apply Qnot_le_lt | apply Qlt_not_le].
Qed.

(** The comparator puts [x] after [y] only when [y] is below [x]. *)
Lemma compare_positive (x y : number) :
  is_nan x = false -> is_nan y = false ->
  ltb (Fin 0) (sub x y) = true -> le y x.
Proof.
  destruct x as [|[|]|a], y as [|[|]|b]; cbn [is_nan sub le Bool.eqb negb];
    try discriminate; trivial.
  intros _ _ H. apply positive_fin in H. unfold Qminus in H.
  apply Qlt_le_weak. now rewrite <- Qlt_minus_iff in H.
Qed.

(** Otherwise [x] is not above [y]. *)
Lemma compare_not_positive (x y : number) :
  is_nan x = false -> is_nan y = false ->
  ltb (Fin 0) (sub x y) = false -> le x y.
Proof.
  destruct x as [|[|]|a], y as [|[|]|b]; cbn [is_nan sub le Bool.eqb negb];
    try discriminate; trivial.
  intros _ _ H. apply not_true_iff_false in H.
  rewrite positive_fin in H. unfold Qminus in H.
  rewrite <- Qlt_minus_iff in H. now apply Qnot_lt_le.
Qed.

(** Two numbers equal to the same [k] are not ordered by the comparator. *)
Lemma compare_same (x y k : number) :
  same x k = true -> same y k = true -> ltb (Fin 0) (sub x y) = false.
Proof.
  destruct x as [|[|]|a], y as [|[|]|b], k as [|[|]|c];
    cbn [same sub Bool.eqb]; try discriminate; trivial.
  intros Ha Hb. apply Qeq_bool_iff in Ha, Hb.
  apply not_true_iff_false. rewrite positive_fin. unfold Qminus.
  rewrite <- Qlt_minus_iff. apply Qle_not_lt. rewrite Ha, Hb. apply Qle_refl.
Qed.

(** ** The sort *)

Lemma sort_insert_perm (A : Type) (cmp : A -> A -> number) x l :
  Permutation (x :: l) (sort_insert cmp x l).
Proof.
  induction l as [|y l IH]; cbn [sort_insert]; [reflexivity|].
  destruct (ltb (Fin 0) (cmp x y)); [|reflexivity].
  rewrite perm_swap. now constructor.
Qed.

Lemma array_sort_perm (A : Type) (cmp : A -> A -> number) l :
  Permutation l (array_sort cmp l).
Proof.
  induction l as [|x l IH]; cbn [array_sort]; [reflexivity|].
  rewrite <- sort_insert_perm. now constructor.
Qed.

Lemma sort_insert_sorted x l :
  has_depth x -> Forall has_depth l -> depth_sorted l ->
  depth_sorted (sort_insert compare_depth x l).
Proof.
  intros Hx Hl Hs. induction Hs as [|y l Hs IH Hy]; cbn [sort_insert].
  - repeat constructor.
  - inversion Hl as [|? ? Hy' Hl']; subst.
    unfold compare_depth at 1.
    destruct (ltb (Fin 0) (sub (avgDepth x) (avgDepth y))) eqn:E.
    + constructor; [now apply IH|].
      eapply Permutation_Forall; [apply sort_insert_perm|].
      constructor; [now apply compare_positive|assumption].
    + assert (Hxy : le (avgDepth x) (avgDepth y))
        by now apply compare_not_positive.
      constructor; [now constructor|].
      constructor; [assumption|].
      eapply Forall_impl; [|exact Hy].
      intros z Hz. now apply le_trans with (avgDepth y).
Qed.

Lemma sort_triangles_sorted l :
  Forall has_depth l -> depth_sorted (sort_triangles l).
Proof.
  unfold sort_triangles.
  induction 1 as [|x l Hx Hl IH]; cbn [array_sort]; [constructor|].
  apply sort_insert_sorted; trivial.
  eapply Permutation_Forall; [apply array_sort_perm|assumption].
Qed.

Lemma sort_insert_with_depth k x l :
  with_depth k (sort_insert compare_depth x l) = with_depth k (x :: l).
Proof.
  induction l as [|y l IH]; cbn [sort_insert]; [reflexivity|].
  unfold compare_depth at 1.
  destruct (ltb (Fin 0) (sub (avgDepth x) (avgDepth y))) eqn:E;
    [|reflexivity].
  unfold with_depth in *. cbn [filter] in *. rewrite IH.
  destruct (same (avgDepth x) k) eqn:Ex, (same (avgDepth y) k) eqn:Ey;
    trivial.
  rewrite (compare_same _ _ _ Ex Ey) in E. discriminate.
Qed.

Lemma sort_triangles_stable k l :
  with_depth k (sort_triangles l) = with_depth k l.
Proof.
  unfold sort_triangles.
  induction l as [|x l IH]; cbn [array_sort]; [reflexivity|].
  rewrite sort_insert_with_depth. unfold with_depth in *. cbn [filter].
  now rewrite IH.
Qed.

(** ** Reading the mesh *)

Lemma array_get_of_nat (arr : list number) (m : nat) :
  array_get arr (of_nat m) = nth_error arr m.
Proof.
  unfold array_get, of_nat. rewrite Qred_integer.
  destruct m as [|m]; [reflexivity|].
  cbn [Z.of_nat]. now rewrite SuccNat2Pos.id_succ.
Qed.

Lemma to_number_nth_error (l : list number) (m : nat) :
  to_number (nth_error l m) = nth m l NaN.
Proof.
  revert l. induction m as [|m IH]; intros [|x l]; cbn; trivial.
Qed.

Lemma fetch_vertex_of_nat (vs : list number) (i : nat) :
  spread (fetch_vertex vs (mul (of_nat i) (Fin 3))) = vertex_at vs i.
Proof.
  change (Fin 3) with (of_nat 3). rewrite mul_of_nat.
  unfold fetch_vertex, vec3_fromValues, vertex_at, spread.
  change (Fin 1) with (of_nat 1). change (Fin 2) with (of_nat 2).
  rewrite !add_of_nat, !array_get_of_nat, !to_number_nth_error.
  now rewrite (Nat.mul_comm i 3).
Qed.

Lemma triangle_at_vertices M vs ixs i :
  tri_vertices (triangle_at M vs ixs i) =
  spread (fetch_vertex vs (mul (to_number (nth_error ixs i)) (Fin 3))) ++
  spread (fetch_vertex vs (mul (to_number (nth_error ixs (i + 1))) (Fin 3))) ++
  spread (fetch_vertex vs (mul (to_number (nth_error ixs (i + 2))) (Fin 3))).
Proof.
  unfold triangle_at. cbv zeta.
  repeat match goal with
         | |- context [transformVertex ?m ?v] =>
             destruct (transformVertex m v) as [[? ?] ?]
         end.
  reflexivity.
Qed.

Lemma nth_error_after (A : Type) (pre l : list A) (j : nat) :
  nth_error (pre ++ l) (length pre + j) = nth_error l j.
Proof. induction pre as [|x pre IH]; cbn; trivial. Qed.

Lemma build_triangles_eq fuel M vs ixs i acc :
  build_triangles fuel M vs ixs i acc =
  if i <? length ixs then
    match fuel with
    | O => None
    | S fuel' =>
        build_triangles fuel' M vs ixs (i + 3) (acc ++ [triangle_at M vs ixs i])
    end
  else Some acc.
Proof. destruct fuel; reflexivity. Qed.

(** The loop pushes one triangle for each triple of the index array, with
    the coordinates that the triple names. *)
Lemma build_triangles_mesh M vs tris : forall pre acc k,
  exists news,
    build_triangles (length tris + k) M vs (pre ++ index_array tris)
      (length pre) acc = Some (acc ++ news) /\
    map tri_vertices news = mesh_triangles vs tris.
Proof.
  induction tris as [|[[i0 i1] i2] tris IH]; intros pre acc k.
  - exists []. rewrite build_triangles_eq.
    change (index_array []) with (@nil number).
    rewrite !app_nil_r, Nat.ltb_irrefl. now split.
  - rewrite build_triangles_eq.
    change (index_array ((i0, i1, i2) :: tris))
      with ([of_nat i0; of_nat i1; of_nat i2] ++ index_array tris).
    set (ixs := pre ++ [of_nat i0; of_nat i1; of_nat i2] ++ index_array tris).
    assert (Hlt : (length pre <? length ixs) = true).
    { apply Nat.ltb_lt. unfold ixs. rewrite !length_app. cbn [length]. lia. }
    rewrite Hlt. cbn [length Nat.add].
    assert (Hixs : ixs = (pre ++ [of_nat i0; of_nat i1; of_nat i2]) ++
                         index_array tris)
      by (unfold ixs; now rewrite <- app_assoc).
    assert (Hi : length pre + 3 =
                 length (pre ++ [of_nat i0; of_nat i1; of_nat i2]))
      by (rewrite length_app; reflexivity).
    destruct (IH (pre ++ [of_nat i0; of_nat i1; of_nat i2])
                 (acc ++ [triangle_at M vs ixs (length pre)]) k)
      as (news & Hrun & Hnews).
    exists (triangle_at M vs ixs (length pre) :: news). split.
    + rewrite <- Hixs, <- Hi in Hrun. rewrite Hrun.
      now rewrite <- app_assoc.
    + cbn [map mesh_triangles]. rewrite Hnews. f_equal.
      rewrite triangle_at_vertices. unfold ixs.
      rewrite <- (Nat.add_0_r (length pre)) at 1.
      rewrite !nth_error_after.
      cbn [nth_error app to_number mesh_triangle].
      now rewrite !fetch_vertex_of_nat.
Qed.

(** ** Colours and draw commands *)

Lemma forEach_draw_vertices len : forall l index,
  map dc_vertices (forEach_draw len index l) = map tri_vertices l.
Proof.
  induction l as [|tri l IH]; intros index; cbn; [reflexivity|].
  now rewrite IH.
Qed.

Lemma forEach_draw_nth len : forall l index k tri,
  nth_error l k = Some tri ->
  nth_error (forEach_draw len index l) k =
  Some (let t := div (of_nat (index + k)) (sub (of_nat len) (Fin 1)) in
        DrawCommand [t; Fin 0; sub (Fin 1) t; Fin 1] (tri_vertices tri)).
Proof.
  induction l as [|x l IH]; intros index [|k] tri H;
    try discriminate; cbn [nth_error forEach_draw] in *.
  - injection H as ->. now rewrite Nat.add_0_r.
  - rewrite (IH _ _ _ H). now rewrite Nat.add_succ_r.
Qed.

Lemma div_of_nat_pos (k m : nat) :
  div (of_nat k) (of_nat (S m)) = fin (Z.of_nat k # Pos.of_succ_nat m).
Proof.
  unfold div, of_nat. cbn [iszero Qnum Z.of_nat Z.eqb].
  unfold fin. f_equal. apply Qred_complete.
  unfold Qeq, Qdiv, Qmult, Qinv. cbn [Qnum Qden]. lia.
Qed.

(** The loop over the indices ends within as many turns as the index array
    has entries. *)
Lemma build_triangles_terminates M vs ixs fuel : forall i acc,
  length ixs <= i + fuel ->
  exists triangles, build_triangles fuel M vs ixs i acc = Some triangles.
Proof.
  induction fuel as [|fuel IH]; intros i acc Hle;
    rewrite build_triangles_eq; destruct (i <? length ixs) eqn:E;
    try (eexists; reflexivity).
  - apply Nat.ltb_lt in E. lia.
  - apply IH. lia.
Qed.

Lemma renderSphere_terminates M (sphereData : buffers) k :
  exists cmds,
    renderSphere (length (indices sphereData) + k) M sphereData = Some cmds.
Proof.
  unfold renderSphere.
  destruct (build_triangles_terminates M (vertices sphereData)
              (indices sphereData) (length (indices sphereData) + k) 0 [])
    as [triangles ->]; [lia|].
  eexists. reflexivity.
Qed.

(** One pass over a mesh given by its index triples. *)
Lemma renderSphere_spec (M : mat4) vs tris k :
  exists cmds,
    renderSphere (length tris + k) M (Buffers vs (index_array tris)) =
      Some cmds /\
    length cmds = length tris /\
    Permutation (map dc_vertices cmds) (mesh_triangles vs tris).
Proof.
  unfold renderSphere. cbn [vertices indices].
  destruct (build_triangles_mesh M vs tris [] [] k) as (news & Hrun & Hnews).
  cbn [app length] in Hrun. rewrite Hrun.
  eexists. split; [reflexivity|].
  assert (Hperm : Permutation (map dc_vertices
                                 (draw_triangles (sort_triangles news)))
                              (mesh_triangles vs tris)).
  { unfold draw_triangles. rewrite forEach_draw_vertices, <- Hnews.
    apply Permutation_map, Permutation_sym, array_sort_perm. }
  split; [|exact Hperm].
  apply Permutation_length in Hperm.
  unfold mesh_triangles in Hperm. now rewrite !length_map in Hperm.
Qed.

Lemma index_array_consecutive count : forall s,
  index_array (consecutive_triples s count) = map of_nat (seq s (3 * count)).
Proof.
  induction count as [|c IH]; intros s; [reflexivity|].
  replace (3 * S c) with (3 + 3 * c) by lia.
  rewrite seq_app, map_app, <- IH. cbn [seq map].
  unfold index_array. cbn [consecutive_triples flat_map map app].
  now rewrite !Nat.add_1_r, (Nat.add_comm s 2), (Nat.add_comm s 3).
Qed.

Lemma consecutive_triples_length count : forall s,
  length (consecutive_triples s count) = count.
Proof.
  induction count as [|c IH]; intros s; cbn; [reflexivity|]. now rewrite IH.
Qed.

(** A generated mesh is drawn with [4 * 4^d] commands, four at least: the
    pass never runs on a single triangle. *)
Lemma renderSphere_generated (M : mat4) d k k' :
  exists b cmds,
    createSphereBuffers (S d + k) (Some (of_nat d)) = Some b /\
    renderSphere (4 * 4 ^ d + k') M b = Some cmds /\
    length cmds = 4 * 4 ^ d /\ 4 <= length cmds.
Proof.
  eexists. rewrite createSphereBuffers_spec.
  rewrite (leaf_indices_of_count 0), <- index_array_consecutive.
  destruct (renderSphere_spec M
              (leaf_vertices d initialA initialB initialC ++
               leaf_vertices d initialD initialC initialB ++
               leaf_vertices d initialA initialD initialB ++
               leaf_vertices d initialA initialC initialD)
              (consecutive_triples 0 (4 * 4 ^ d)) k')
    as (cmds & Hrun & Hlen & _).
  rewrite consecutive_triples_length in Hrun, Hlen.
  exists cmds. repeat split; trivial.
  rewrite Hlen. pose proof (Nat.pow_nonzero 4 d). lia.
Qed.

(** ** Properties of the renderer *)

(** C3.  After the sort the [avgDepth] values are in non-decreasing order,
    for every list of triangles whose depths are numbers of the number
    line; the sorted list holds the same triangles, and triangles of equal
    [avgDepth] are in the order they had before the sort. *)
Theorem sort_triangles_sorted_stable :
  forall triangles : list triangle,
    Forall has_depth triangles ->
    depth_sorted (sort_triangles triangles) /\
    Permutation triangles (sort_triangles triangles) /\
    forall k, with_depth k (sort_triangles triangles) = with_depth k triangles.
Proof.
  intros triangles H. split; [|split].
  - now apply sort_triangles_sorted.
  - apply array_sort_perm.
  - intros k. apply sort_triangles_stable.
Qed.

(** C4, as amended.  The gradient parameter is [index / (n - 1)] with no
    special case.  With a single triangle in the list it is [0 / 0], which
    is [NaN]: the colour handed to the GL context is [(NaN, 0, NaN, 1)],
    and the pass goes on and issues the draw command all the same.  The
    case does not arise in the program: a mesh of depth [d] that reaches
    the renderer is drawn with [4 * 4^d] commands, more than one. *)
Theorem draw_triangles_single :
  (forall tri : triangle,
      div (of_nat 0) (sub (of_nat 1) (Fin 1)) = NaN /\
      draw_triangles [tri] =
      [DrawCommand [NaN; Fin 0; NaN; Fin 1] (tri_vertices tri)]) /\
  (forall (M : mat4) d k k', exists b cmds,
      createSphereBuffers (S d + k) (Some (of_nat d)) = Some b /\
      renderSphere (4 * 4 ^ d + k') M b = Some cmds /\
      length cmds = 4 * 4 ^ d /\ 1 < length cmds).
Proof.
  split.
  - intros tri. split; reflexivity.
  - intros M d k k'.
    destruct (renderSphere_generated M d k k')
      as (b & cmds & H1 & H2 & H3 & H4).
    exists b, cmds. repeat split; trivial. lia.
Qed.

(** C5.  In a list of [n > 1] sorted triangles, the triangle at position
    [k] is drawn with the colour [(t, 0, 1 - t, 1)] where [t] is
    [k / (n - 1)]; the first one is drawn in [(0, 0, 1, 1)] and the last one
    in [(1, 0, 0, 1)]. *)
Theorem draw_triangles_gradient :
  forall (sorted : list triangle) (k : nat) (tri : triangle),
    1 < length sorted ->
    nth_error sorted k = Some tri ->
    let n := length sorted in
    let t := fin (Z.of_nat k # Pos.of_nat (n - 1)) in
    nth_error (draw_triangles sorted) k =
      Some (DrawCommand [t; Fin 0; sub (Fin 1) t; Fin 1] (tri_vertices tri)) /\
    t = div (of_nat k) (sub (of_nat n) (Fin 1)) /\
    (k = 0 -> [t; Fin 0; sub (Fin 1) t; Fin 1] =
              [Fin 0; Fin 0; Fin 1; Fin 1]) /\
    (k = n - 1 -> [t; Fin 0; sub (Fin 1) t; Fin 1] =
                  [Fin 1; Fin 0; Fin 0; Fin 1]).
Proof.
  intros sorted k tri Hn Hk n.
  assert (Hdraw : nth_error (draw_triangles sorted) k =
      Some (let t' := div (of_nat k) (sub (of_nat n) (Fin 1)) in
            DrawCommand [t'; Fin 0; sub (Fin 1) t'; Fin 1] (tri_vertices tri)))
    by exact (forEach_draw_nth _ _ 0 _ Hk).
  fold n in Hn. clearbody n.
  destruct n as [|[|m]]; try lia.
  replace (S (S m) - 1) with (S m) by lia.
  intros t.
  assert (Ht : t = div (of_nat k) (sub (of_nat (S (S m))) (Fin 1))).
  { subst t. now rewrite sub_of_nat_S, div_of_nat_pos, Pos.of_nat_succ. }
  split; [|split; [exact Ht|split]].
  - rewrite Hdraw. cbv zeta. now rewrite <- Ht.
  - intros ->.
    assert (E : t = Fin 0) by (apply fin_of_Z; reflexivity).
    now rewrite E.
  - intros ->.
    assert (E : t = Fin 1).
    { apply fin_of_Z. unfold Qeq. cbn [Qnum Qden].
      rewrite <- Pos.of_nat_succ, Zpos_P_of_succ_nat. lia. }
    now rewrite E.
Qed.

(** C10.  For every view matrix and every mesh, one pass of [renderSphere]
    issues one draw command for each triangle of the mesh: the vertex data
    of the commands are, up to their order, the coordinates that the index
    triples name in the vertex array of the mesh, as they are stored there.
    The matrix only decides the order: with another matrix the pass issues
    the same vertex data, in an order of its own. *)
Theorem renderSphere_draws_each_triangle_once :
  forall (M : mat4) (vs : list number) (tris : list (nat * nat * nat)) k,
  exists cmds,
    renderSphere (length tris + k) M (Buffers vs (index_array tris)) =
      Some cmds /\
    length cmds = length tris /\
    Permutation (map dc_vertices cmds) (mesh_triangles vs tris) /\
    forall M' : mat4, exists cmds',
      renderSphere (length tris + k) M' (Buffers vs (index_array tris)) =
        Some cmds' /\
      Permutation (map dc_vertices cmds) (map dc_vertices cmds').
Proof.
  intros M vs tris k.
  destruct (renderSphere_spec M vs tris k) as (cmds & Hrun & Hlen & Hperm).
  exists cmds. repeat split; trivial.
  intros M'.
  destruct (renderSphere_spec M' vs tris k) as (cmds' & Hrun' & _ & Hperm').
  exists cmds'. split; trivial.
  now rewrite Hperm, Hperm'.
Qed.

(** ** Depths that are not natural numbers *)

Lemma strict_eq_0_natural x : strict_eq x (Fin 0) = true -> is_natural x.
Proof.
  destruct x as [| |q]; cbn; try discriminate.
  intros H. apply Qeq_bool_iff in H. now exists 0.
Qed.

Lemma sub_1_natural x : is_natural (sub x (Fin 1)) -> is_natural x.
Proof.
  destruct x as [| |q]; unfold sub, fin, is_natural; trivial.
  intros [n Hn]. rewrite Qred_correct in Hn. exists (S n).
  rewrite Nat2Z.inj_succ. unfold Qeq in *.
  unfold Qminus, Qplus, Qopp in Hn. cbn [Qnum Qden] in *. lia.
Qed.

(** A call that returns was given a depth among 0, 1, 2, ... *)
Lemma refineSphere_returns_only_natural fuel : forall v1 v2 v3 depth b b',
  refineSphere fuel v1 v2 v3 depth b = Some b' -> is_natural depth.
Proof.
  induction fuel as [|fuel IH]; intros v1 v2 v3 depth b b' H;
    [discriminate|].
  cbn [refineSphere] in H.
  destruct (strict_eq depth (Fin 0)) eqn:E.
  - now apply strict_eq_0_natural.
  - destruct (refineSphere fuel v1 _ _ (sub depth (Fin 1)) b) eqn:E1;
      [|discriminate].
    apply sub_1_natural. eapply IH. exact E1.
Qed.

(** The depth counts as the number it denotes, however it is written. *)
Lemma refineSphere_depth_value fuel v1 v2 v3 q n b :
  (q == Z.of_nat n # 1)%Q ->
  refineSphere fuel v1 v2 v3 (Fin q) b =
  refineSphere fuel v1 v2 v3 (of_nat n) b.
Proof.
  intros Hq. destruct fuel as [|fuel]; [reflexivity|].
  cbn [refineSphere].
  assert (E1 : strict_eq (Fin q) (Fin 0) = strict_eq (of_nat n) (Fin 0)).
  { unfold strict_eq, of_nat.
    destruct (Qeq_bool q 0) eqn:A, (Qeq_bool (Z.of_nat n # 1) 0) eqn:B;
      trivial.
    - apply Qeq_bool_iff in A. rewrite Hq in A.
      apply Qeq_bool_iff in A. congruence.
    - apply Qeq_bool_iff in B. rewrite <- Hq in B.
      apply Qeq_bool_iff in B. congruence. }
  assert (E2 : sub (Fin q) (Fin 1) = sub (of_nat n) (Fin 1)).
  { unfold sub, of_nat, fin. f_equal. apply Qred_complete. now rewrite Hq. }
  now rewrite E1, E2.
Qed.

Lemma refineSphere_returns_natural v1 v2 v3 depth b :
  is_natural depth ->
  exists fuel b', refineSphere fuel v1 v2 v3 depth b = Some b'.
Proof.
  destruct depth as [| |q]; cbn; try contradiction.
  intros [n Hn]. exists (S n + 0). eexists.
  rewrite refineSphere_depth_value with (n := n) by exact Hn.
  apply refineSphere_spec.
Qed.

(** X1.  A call of [refineSphere] returns exactly when its depth is one of
    the numbers 0, 1, 2, ...: for [NaN], an infinity, a negative or a
    fractional depth the test [depth === 0] never succeeds and the
    recursion does not end, whatever the size of the call stack.
    [createSphereBuffers] returns under the same condition on the level it
    is given. *)
Theorem refineSphere_returns_iff_natural :
  (forall v1 v2 v3 depth b,
      (exists fuel b', refineSphere fuel v1 v2 v3 depth b = Some b') <->
      is_natural depth) /\
  (forall level,
      (exists fuel b, createSphereBuffers fuel (Some level) = Some b) <->
      is_natural level).
Proof.
  split.
  - intros v1 v2 v3 depth b. split.
    + intros (fuel & b' & H).
      eapply refineSphere_returns_only_natural. exact H.
    + apply refineSphere_returns_natural.
  - intros level. split.
    + intros (fuel & b & H). unfold createSphereBuffers in H. cbv zeta in H.
      destruct (refineSphere fuel initialA initialB initialC level
                  empty_buffers) eqn:E; [|discriminate].
      eapply refineSphere_returns_only_natural. exact E.
    + destruct level as [| |q]; cbn; try contradiction.
      intros [n Hn]. exists (S n + 0). eexists.
      unfold createSphereBuffers. cbv zeta.
      repeat (rewrite refineSphere_depth_value with (n := n) by exact Hn;
              rewrite refineSphere_spec).
      reflexivity.
Qed.

(** ** The element array buffer *)

Lemma to_uint16_of_nat n : to_uint16 (of_nat n) = (Z.of_nat n mod 65536)%Z.
Proof. unfold to_uint16, of_nat. cbn [Qnum Qden]. now rewrite Z.quot_1_r. Qed.

Lemma nth_error_seq_lt len : forall s i,
  i < len -> nth_error (seq s len) i = Some (s + i).
Proof.
  induction len as [|len IH]; intros s i Hi; [lia|].
  destruct i as [|i]; cbn [seq nth_error].
  - now rewrite Nat.add_0_r.
  - rewrite IH by lia. f_equal. lia.
Qed.

Lemma pow_4_Z d : Z.of_nat (4 ^ d) = (4 ^ Z.of_nat d)%Z.
Proof. now rewrite Nat2Z.inj_pow. Qed.

(** X2.  The indices of a mesh go to the element array buffer through
    [new Uint16Array(indices)].  Up to depth 6 the conversion keeps every
    index (the largest is 49151).  From depth 7 on it does not: the index
    65536 is stored as 0, so the buffer no longer names the vertices of the
    mesh. *)
Theorem index_buffer_uint16 :
  (forall d k, d <= 6 -> exists b,
      createSphereBuffers (S d + k) (Some (of_nat d)) = Some b /\
      Uint16Array (indices b) = map Z.of_nat (seq 0 (length (indices b)))) /\
  (forall j k, exists b,
      createSphereBuffers (S (7 + j) + k) (Some (of_nat (7 + j))) = Some b /\
      nth_error (indices b) (Z.to_nat 65536) =
        Some (of_nat (Z.to_nat 65536)) /\
      nth_error (Uint16Array (indices b)) (Z.to_nat 65536) = Some 0%Z).
Proof.
  split.
  - intros d k Hd. eexists. split; [apply createSphereBuffers_spec|].
    cbn [indices]. rewrite leaf_indices_length.
    rewrite (leaf_indices_of_count 0). unfold Uint16Array.
    rewrite map_map. apply map_ext_in. intros i Hi.
    apply in_seq in Hi. rewrite to_uint16_of_nat.
    apply Z.mod_small.
    assert (H4 : (Z.of_nat (4 ^ d) <= 4 ^ 6)%Z).
    { rewrite pow_4_Z. apply Z.pow_le_mono_r; lia. }
    change (4 ^ 6)%Z with 4096%Z in H4. lia.
  - intros j k. eexists. split; [apply createSphereBuffers_spec|].
    cbn [indices]. rewrite (leaf_indices_of_count 0).
    set (p := Z.to_nat 65536).
    assert (Hp : Z.of_nat p = 65536%Z) by (unfold p; now rewrite Z2Nat.id).
    assert (Hlt : p < 3 * (4 * 4 ^ (7 + j))).
    { assert (H4 : (4 ^ 7 <= Z.of_nat (4 ^ (7 + j)))%Z).
      { rewrite pow_4_Z. apply Z.pow_le_mono_r; lia. }
      change (4 ^ 7)%Z with 16384%Z in H4. lia. }
    clearbody p.
    assert (E : nth_error (map of_nat (seq 0 (3 * (4 * 4 ^ (7 + j))))) p =
                Some (of_nat p)).
    { rewrite nth_error_map, nth_error_seq_lt by exact Hlt. reflexivity. }
    split; [exact E|].
    unfold Uint16Array. rewrite nth_error_map, E. cbn [option_map].
    rewrite to_uint16_of_nat, Hp. reflexivity.
Qed.

(** ** The triangles of a generated mesh *)

Lemma leaf_triangles_concat d : forall v1 v2 v3,
  concat (leaf_triangles d v1 v2 v3) = leaf_vertices d v1 v2 v3.
Proof.
  induction d as [|d IH]; intros v1 v2 v3.
  - cbn [leaf_triangles leaf_vertices concat]. now rewrite app_nil_r.
  - cbn [leaf_triangles leaf_vertices]. now rewrite !concat_app, !IH.
Qed.

Lemma leaf_triangles_nine d : forall v1 v2 v3,
  Forall (fun t => length t = 9) (leaf_triangles d v1 v2 v3).
Proof.
  induction d as [|d IH]; intros v1 v2 v3.
  - repeat constructor. now rewrite !length_app, !spread_length.
  - cbn [leaf_triangles]. rewrite !Forall_app. repeat split; apply IH.
Qed.

Lemma leaf_triangles_length d : forall v1 v2 v3,
  length (leaf_triangles d v1 v2 v3) = 4 ^ d.
Proof.
  induction d as [|d IH]; intros v1 v2 v3; [reflexivity|].
  cbn [leaf_triangles]. rewrite !length_app, !IH, Nat.pow_succ_r'. lia.
Qed.

(** Reading a flat array of nine-number blocks through the indices
    0, 1, 2, 3, ... gives the blocks back. *)
Lemma mesh_triangles_blocks blocks : forall pre m,
  Forall (fun t => length t = 9) blocks ->
  length pre = 9 * m ->
  mesh_triangles (pre ++ concat blocks)
    (consecutive_triples (3 * m) (length blocks)) = blocks.
Proof.
  induction blocks as [|t blocks IH]; intros pre m Hb Hpre; [reflexivity|].
  inversion Hb as [|? ? Ht Hb']; subst.
  cbn [length consecutive_triples mesh_triangles map concat]. f_equal.
  - do 10 (destruct t as [|? t]; try discriminate). clear Ht.
    unfold mesh_triangle, vertex_at.
    replace (3 * (3 * m)) with (length pre + 0) by lia.
    replace (3 * (3 * m + 1)) with (length pre + 3) by lia.
    replace (3 * (3 * m + 2)) with (length pre + 6) by lia.
    rewrite <- !Nat.add_assoc. rewrite !app_nth2_plus. reflexivity.
  - replace (3 * m + 3) with (3 * (m + 1)) by lia.
    rewrite app_assoc. apply IH; trivial.
    rewrite length_app. lia.
Qed.

(** X3.  One pass of [renderSphere] over the mesh that [createSphereBuffers]
    built at depth [d] draws every leaf triangle of the subdivision exactly
    once, with the coordinates of its own three corners: the vertex data of
    the [4 * 4^d] draw commands are, up to their order, the leaf triangles
    of the four faces. *)
Theorem renderSphere_draws_the_leaves :
  forall (M : mat4) d k k', exists b cmds,
    createSphereBuffers (S d + k) (Some (of_nat d)) = Some b /\
    renderSphere (4 * 4 ^ d + k') M b = Some cmds /\
    length cmds = 4 * 4 ^ d /\
    Permutation (map dc_vertices cmds)
      (leaf_triangles d initialA initialB initialC ++
       leaf_triangles d initialD initialC initialB ++
       leaf_triangles d initialA initialD initialB ++
       leaf_triangles d initialA initialC initialD).
Proof.
  intros M d k k'.
  set (blocks := leaf_triangles d initialA initialB initialC ++
                 leaf_triangles d initialD initialC initialB ++
                 leaf_triangles d initialA initialD initialB ++
                 leaf_triangles d initialA initialC initialD).
  assert (Hlen : length blocks = 4 * 4 ^ d).
  { unfold blocks. rewrite !length_app, !leaf_triangles_length. lia. }
  assert (Hnine : Forall (fun t => length t = 9) blocks).
  { unfold blocks. rewrite !Forall_app.
    repeat split; apply leaf_triangles_nine. }
  assert (Hcat : concat blocks =
                 leaf_vertices d initialA initialB initialC ++
                 leaf_vertices d initialD initialC initialB ++
                 leaf_vertices d initialA initialD initialB ++
                 leaf_vertices d initialA initialC initialD).
  { unfold blocks. now rewrite !concat_app, !leaf_triangles_concat. }
  eexists. rewrite createSphereBuffers_spec.
  rewrite (leaf_indices_of_count 0), <- index_array_consecutive.
  rewrite <- Hcat, <- Hlen.
  destruct (renderSphere_spec M (concat blocks)
              (consecutive_triples 0 (length blocks)) k')
    as (cmds & Hrun & Hl & Hperm).
  rewrite consecutive_triples_length in Hrun, Hl.
  exists cmds. repeat split; trivial.
  pose proof (@mesh_triangles_blocks blocks [] 0 Hnine eq_refl) as Hb.
  cbn [app Nat.mul Nat.add] in Hb. now rewrite Hb in Hperm.
Qed.

(** ** A pass over any arrays *)

Lemma triangle_at_nine M vs ixs i :
  length (tri_vertices (triangle_at M vs ixs i)) = 9.
Proof. rewrite triangle_at_vertices. now rewrite !length_app, !spread_length. Qed.

Lemma build_triangles_count M vs ixs n : forall fuel i acc,
  n <= fuel -> length ixs <= i + 3 * n -> i + 3 * n < length ixs + 3 ->
  exists news,
    build_triangles fuel M vs ixs i acc = Some (acc ++ news) /\
    length news = n /\
    Forall (fun t => length (tri_vertices t) = 9) news.
Proof.
  induction n as [|n IH]; intros fuel i acc Hf Hlo Hhi;
    rewrite build_triangles_eq.
  - replace (i <? length ixs) with false by (symmetry; apply Nat.ltb_ge; lia).
    exists []. now rewrite app_nil_r.
  - replace (i <? length ixs) with true by (symmetry; apply Nat.ltb_lt; lia).
    destruct fuel as [|fuel]; [lia|].
    destruct (IH fuel (i + 3) (acc ++ [triangle_at M vs ixs i]))
      as (news & Hrun & Hlen & Hnine); try lia.
    exists (triangle_at M vs ixs i :: news). repeat split.
    + now rewrite Hrun, <- app_assoc.
    + cbn [length]. now rewrite Hlen.
    + constructor; [apply triangle_at_nine|assumption].
Qed.

Lemma forEach_draw_shape len : forall l index,
  Forall (fun t => length (tri_vertices t) = 9) l ->
  Forall (fun c => length (dc_vertices c) = 9 /\ length (dc_color c) = 4)
    (forEach_draw len index l).
Proof.
  induction l as [|tri l IH]; intros index H; cbn [forEach_draw];
    [constructor|].
  inversion H; subst. constructor; [now split|now apply IH].
Qed.

Lemma forEach_draw_length len : forall l index,
  length (forEach_draw len index l) = length l.
Proof.
  induction l as [|tri l IH]; intros index; cbn; [reflexivity|].
  now rewrite IH.
Qed.

(** X4.  One pass of [renderSphere] returns for any two arrays, checked or
    not: it issues one draw command for each started group of three
    indices, [ceil(indices.length / 3)] in all (none for an empty index
    array), and each command carries nine vertex numbers and a colour of
    four numbers, also where an index is missing or names no vertex. *)
Theorem renderSphere_any_mesh :
  forall (M : mat4) (sphereData : buffers) k, exists cmds,
    renderSphere (length (indices sphereData) + k) M sphereData = Some cmds /\
    length cmds = (length (indices sphereData) + 2) / 3 /\
    Forall (fun c => length (dc_vertices c) = 9 /\ length (dc_color c) = 4)
      cmds.
Proof.
  intros M sphereData k. unfold renderSphere.
  set (ixs := indices sphereData).
  pose proof (Nat.div_mod_eq (length ixs + 2) 3) as Hdiv.
  pose proof (Nat.mod_upper_bound (length ixs + 2) 3) as Hmod.
  destruct (@build_triangles_count M (vertices sphereData) ixs
              ((length ixs + 2) / 3) (length ixs + k) 0 [])
    as (news & Hrun & Hlen & Hnine); try lia.
  rewrite Hrun. cbn [app]. eexists. split; [reflexivity|].
  assert (Hperm : Permutation news (sort_triangles news))
    by apply array_sort_perm.
  split.
  - unfold draw_triangles. rewrite forEach_draw_length.
    now rewrite <- (Permutation_length Hperm).
  - apply forEach_draw_shape.
    eapply Permutation_Forall; [exact Hperm|assumption].
Qed.

(** ** The gradient *)

Lemma forEach_draw_colors len : forall l index,
  map dc_color (forEach_draw len index l) =
  map (gradient len) (seq index (length l)).
Proof.
  induction l as [|tri l IH]; intros index; cbn [forEach_draw map length seq];
    [reflexivity|].
  now rewrite IH.
Qed.

Lemma gradient_value m k :
  gradient (S (S m)) k =
  [Fin (Qred (Z.of_nat k # Pos.of_succ_nat m)); Fin 0;
   Fin (Qred (1 - Qred (Z.of_nat k # Pos.of_succ_nat m))); Fin 1].
Proof.
  unfold gradient. cbv zeta. now rewrite sub_of_nat_S, div_of_nat_pos.
Qed.

(** X5.  The colours of a frame depend on the number of triangles only, not
    on the mesh or on the camera.  With more than one triangle, every
    colour is [(r, 0, b, 1)] with [r] and [b] between 0 and 1 and
    [r + b = 1], and along the draw order, from the farthest triangle to
    the nearest, [r] grows strictly and [b] falls strictly. *)
Theorem draw_triangles_colors :
  forall n k, 1 < n -> S k < n ->
    (forall triangles, length triangles = n ->
       map dc_color (draw_triangles triangles) = map (gradient n) (seq 0 n)) /\
    exists r b r' b',
      gradient n k = [Fin r; Fin 0; Fin b; Fin 1] /\
      gradient n (S k) = [Fin r'; Fin 0; Fin b'; Fin 1] /\
      (0 <= r /\ r < r' /\ r' <= 1)%Q /\
      (0 <= b' /\ b' < b /\ b <= 1)%Q /\
      add (Fin r) (Fin b) = Fin 1 /\ add (Fin r') (Fin b') = Fin 1.
Proof.
  intros n k Hn Hk. split.
  - intros triangles <-. unfold draw_triangles. apply forEach_draw_colors.
  - destruct n as [|[|m]]; try lia.
    rewrite !gradient_value. do 4 eexists.
    split; [reflexivity|]. split; [reflexivity|].
    set (p := Pos.of_succ_nat m).
    assert (Hp : Z.pos p = Z.of_nat (S m)) by (unfold p; lia).
    assert (H0 : (0 <= Z.of_nat k # p)%Q) by (unfold Qle; cbn; lia).
    assert (H1 : (Z.of_nat k # p < Z.of_nat (S k) # p)%Q)
      by (unfold Qlt; cbn [Qnum Qden]; nia).
    assert (H2 : (Z.of_nat (S k) # p <= 1)%Q)
      by (unfold Qle; cbn [Qnum Qden]; lia).
    repeat split; rewrite ?Qred_correct; try lra.
    + unfold add, fin. f_equal. rewrite <- Qred_integer.
      apply Qred_complete. rewrite !Qred_correct. change (1 # 1)%Q with 1%Q.
      ring.
    + unfold add, fin. f_equal. rewrite <- Qred_integer.
      apply Qred_complete. rewrite !Qred_correct. change (1 # 1)%Q with 1%Q.
      ring.
Qed.

End Program.

(** ** The reference instance is accurate *)

Section ReferenceAccuracy.

Local Open Scope Q_scope.
Unset Implicit Arguments.

Lemma val_inv p x y z : val p = Some (x, y, z) -> p = (Fin x, Fin y, Fin z).
Proof.
  destruct p as [[[| |a] [| |b]] [| |c]]; cbn; try discriminate.
  now intros [= -> -> ->].
Qed.

Lemma close_Qred e x y z x' y' z' :
  0 <= e -> x' == x -> y' == y -> z' == z ->
  close e (Qred x', Qred y', Qred z') (x, y, z).
Proof.
  intros He Hx Hy Hz. unfold close.
  rewrite !Qred_correct, Hx, Hy, Hz. repeat split; lra.
Qed.

Lemma Reference_accurate_add : accurate_add Reference.vec3_add.
Proof.
  intros a b [[a0 a1] a2] [[b0 b1] b2] Va Vb _ _.
  apply val_inv in Va, Vb. subst a b.
  eexists. split; [reflexivity|].
  apply close_Qred; [unfold eps; lra | reflexivity ..].
Qed.

Lemma sqrt_down_spec q :
  1 <= q ->
  1 <= Reference.sqrt_down q /\
  Reference.sqrt_down q * Reference.sqrt_down q <= q /\
  q <= (Reference.sqrt_down q + (1 # 2 ^ 32)) *
       (Reference.sqrt_down q + (1 # 2 ^ 32)).
Proof.
  destruct q as [N D]. unfold Reference.sqrt_down. cbn [Qnum Qden].
  intros H1. unfold Qle in H1. cbn [Qnum Qden] in H1.
  set (P := (2 ^ 32)%positive).
  assert (HP : (2 ^ 64 = Z.pos P * Z.pos P)%Z) by reflexivity.
  rewrite HP.
  set (M := (N * (Z.pos P * Z.pos P))%Z).
  set (a := (M / Z.pos D)%Z).
  set (b := Z.sqrt a).
  assert (Ha1 : (Z.pos D * a <= M)%Z) by (apply Z.mul_div_le; lia).
  assert (Ha2 : (M < Z.pos D * Z.succ a)%Z) by (apply Z.mul_succ_div_gt; lia).
  assert (Ha0 : (Z.pos P * Z.pos P <= a)%Z).
  { apply Z.div_le_lower_bound; [lia|]. unfold M. nia. }
  assert (Hb : (b * b <= a < Z.succ b * Z.succ b)%Z)
    by (apply Z.sqrt_spec; lia).
  assert (Hb0 : (Z.pos P <= b)%Z).
  { unfold b. rewrite <- (Z.sqrt_square (Z.pos P)) by lia.
    now apply Z.sqrt_le_mono. }
  assert (HM : M = (N * (Z.pos P * Z.pos P))%Z) by reflexivity.
  assert (HD : (0 < Z.pos D)%Z) by lia.
  assert (HPp : (0 < Z.pos P)%Z) by lia.
  clearbody P M a b. clear HP.
  unfold Qle, Qmult, Qplus. cbn [Qnum Qden].
  rewrite ?Pos2Z.inj_mul.
  remember (Z.pos D) as d eqn:Ed. remember (Z.pos P) as p eqn:Ep.
  clear Ed Ep.
  assert (G2 : (b * b * d <= M)%Z) by nia.
  assert (G3 : (M <= (b + 1) * (b + 1) * d)%Z) by nia.
  repeat split.
  - lia.
  - now rewrite <- HM.
  - replace (N * (p * p * (p * p)))%Z with (M * (p * p))%Z by (subst M; ring).
    replace ((b * p + 1 * p) * (b * p + 1 * p) * d)%Z
      with ((b + 1) * (b + 1) * d * (p * p))%Z by ring.
    apply Z.mul_le_mono_nonneg_r; nia.
Qed.

Lemma ltb_0_fin q : 0 < q -> ltb (Fin 0) (Fin q) = true.
Proof.
  intros H. unfold ltb. apply negb_true_iff, not_true_iff_false.
  rewrite Qle_bool_iff. now apply Qlt_not_le.
Qed.

Lemma isneg_pos q : 0 < q -> isneg q = false.
Proof.
  unfold isneg, Qlt. cbn [Qnum Qden]. intros H. apply Z.ltb_ge. lia.
Qed.

Lemma iszero_pos q : 0 < q -> iszero q = false.
Proof.
  unfold iszero, Qlt. cbn [Qnum Qden]. intros H. apply Z.eqb_neq. lia.
Qed.

Lemma square_near_1 t c :
  0 <= t -> t <= c -> c <= 1 # 4000000 -> (1 + t) * (1 + t) <= 1 + eps.
Proof. unfold eps. intros. nra. Qed.

Lemma scale_accurate s R L c :
  0 <= c -> c <= 1 # 4000000 ->
  s * R == 1 -> 1 <= R -> R * R <= L -> L <= (R + c) * (R + c) ->
  0 < s /\ 1 - eps <= s * s * L /\ s * s * L <= 1 + eps.
Proof.
  intros Hc0 Hc Hs HR H1 H2.
  assert (Hs0 : 0 < s) by nra.
  assert (Hs1 : s <= 1) by nra.
  assert (E : s * s * (R * R) == 1).
  { setoid_replace (s * s * (R * R)) with ((s * R) * (s * R)) by ring.
    rewrite Hs. ring. }
  assert (U : s * s * L <= s * s * ((R + c) * (R + c))).
  { apply Qmult_le_l; [nra|assumption]. }
  assert (V : s * s * ((R + c) * (R + c)) == (1 + s * c) * (1 + s * c)).
  { setoid_replace (s * s * ((R + c) * (R + c)))
      with ((s * R + s * c) * (s * R + s * c)) by ring.
    rewrite Hs. reflexivity. }
  assert (Lw : s * s * (R * R) <= s * s * L).
  { apply Qmult_le_l; [nra|assumption]. }
  assert (W : (1 + s * c) * (1 + s * c) <= 1 + eps).
  { apply square_near_1 with c; trivial; nra. }
  rewrite V in U. rewrite E in Lw.
  unfold eps in *. repeat split; trivial; lra.
Qed.

Lemma Reference_accurate_normalize :
  accurate_normalize Reference.vec3_normalize.
Proof.
  intros a [[x y] z] Va HL _.
  apply val_inv in Va. subst a.
  set (q := Qred (Qred (Qred (x * x) + Qred (y * y)) + Qred (z * z))).
  assert (Hlen : add (add (mul (Fin x) (Fin x)) (mul (Fin y) (Fin y)))
                     (mul (Fin z) (Fin z)) = Fin q) by reflexivity.
  assert (Hq : q == qdot (x, y, z) (x, y, z)).
  { unfold q, qdot. rewrite !Qred_correct. reflexivity. }
  assert (Hq1 : 1 <= q) by now rewrite Hq.
  destruct (sqrt_down_spec q Hq1) as (HR & H1 & H2).
  set (R := Reference.sqrt_down q) in *.
  set (s := Qred (1 / Qred R)).
  assert (Hs : s * R == 1).
  { unfold s. rewrite !Qred_correct. field. lra. }
  assert (Hnorm : Reference.vec3_normalize (Fin x, Fin y, Fin z) =
                  (Fin (Qred (x * s)), Fin (Qred (y * s)), Fin (Qred (z * s)))).
  { unfold Reference.vec3_normalize. cbv zeta. rewrite Hlen.
    rewrite ltb_0_fin by lra.
    unfold Reference.Math_sqrt. rewrite isneg_pos by lra.
    fold R. unfold fin at 1 2 3. unfold div.
    rewrite iszero_pos by (rewrite Qred_correct; lra).
    reflexivity. }
  rewrite Hnorm.
  assert (Hc : 0 <= 1 # 2 ^ 32 /\ 1 # 2 ^ 32 <= 1 # 4000000)
    by (split; vm_compute; discriminate).
  rewrite Hq in H1, H2.
  destruct (scale_accurate s R _ _ (proj1 Hc) (proj2 Hc) Hs HR H1 H2)
    as (S0 & S1 & S2).
  exists s. eexists. split; [reflexivity|].
  repeat split; trivial.
  all: rewrite Qred_correct; unfold eps; lra.
Qed.

End ReferenceAccuracy.

Set Implicit Arguments.

(** ** The gasket *)

Section GasketFacts.

Import Gasket.

Lemma sierpinskiT_node fuel vs d pts :
  sierpinskiT (S fuel) vs (of_nat (S d)) pts =
  let x1 := nth 0 vs NaN in
  let y1 := nth 1 vs NaN in
  let x2 := nth 2 vs NaN in
  let y2 := nth 3 vs NaN in
  let x3 := nth 4 vs NaN in
  let y3 := nth 5 vs NaN in
  let mid1 := [div (add x1 x2) (Fin 2); div (add y1 y2) (Fin 2)] in
  let mid2 := [div (add x2 x3) (Fin 2); div (add y2 y3) (Fin 2)] in
  let mid3 := [div (add x1 x3) (Fin 2); div (add y1 y3) (Fin 2)] in
  p1 <- sierpinskiT fuel ([x1; y1] ++ mid1 ++ mid3) (of_nat d) pts ;;
  p2 <- sierpinskiT fuel (mid1 ++ [x2; y2] ++ mid2) (of_nat d) p1 ;;
  sierpinskiT fuel (mid3 ++ mid2 ++ [x3; y3]) (of_nat d) p2.
Proof.
  cbn [sierpinskiT]. rewrite strict_eq_of_nat_0, sub_of_nat_S. reflexivity.
Qed.

Lemma sierpinskiT_spec d : forall k vs pts,
  sierpinskiT (S d + k) vs (of_nat d) pts = Some (pts ++ gasket d vs).
Proof.
  induction d as [|d IH]; intros k vs pts; [reflexivity|].
  change (S (S d) + k) with (S (S d + k)).
  rewrite sierpinskiT_node. cbv zeta.
  rewrite !IH. cbn [gasket]. now rewrite <- !app_assoc.
Qed.


Lemma gasket_length d : forall vs,
  length (gasket d vs) = if d =? 0 then length vs else 6 * 3 ^ d.
Proof.
  induction d as [|d IH]; intros vs; [reflexivity|].
  cbn [gasket]. rewrite !length_app, !IH.
  destruct d as [|d]; [reflexivity|].
  cbn [Nat.eqb]. cbn [Nat.pow]. lia.
Qed.




Local Open Scope Q_scope.







Local Close Scope Q_scope.

Lemma ltb_of_nat (m n : nat) : ltb (of_nat m) (of_nat n) = (m <? n).
Proof.
  unfold ltb, of_nat.
  destruct (m <? n) eqn:E.
  - apply Nat.ltb_lt in E. apply negb_true_iff, not_true_iff_false.
    rewrite Qle_bool_iff. unfold Qle. cbn [Qnum Qden]. lia.
  - apply Nat.ltb_ge in E. apply negb_false_iff.
    rewrite Qle_bool_iff. unfold Qle. cbn [Qnum Qden]. lia.
Qed.

Lemma div_of_nat_2 (m : nat) : div (of_nat (2 * m)) (Fin 2) = of_nat m.
Proof.
  unfold div, of_nat. cbn [iszero Qnum Z.eqb].
  apply fin_of_Z.
  unfold Qeq, Qdiv, Qmult, Qinv. cbn [Qnum Qden]. lia.
Qed.

Lemma gasket_initial_length c :
  length (gasket c initialVertices) = 2 * 3 ^ S c.
Proof.
  rewrite gasket_length. destruct c as [|c]; [reflexivity|].
  cbn [Nat.eqb Nat.pow]. lia.
Qed.

(** The drawing of the gasket at depth [c]. *)
Lemma animateGasket_frame c k pts :
  animateGasket (S c + k) (State (of_nat c) pts) =
  Some (State (of_nat (if c <? 5 then S c else c)) (gasket c initialVertices),
        Draw (gasket c initialVertices) (of_nat (3 ^ S c)),
        c <? 5).
Proof.
  unfold animateGasket. cbn [currentDepth].
  rewrite sierpinskiT_spec. cbn [app].
  rewrite gasket_initial_length, div_of_nat_2.
  change maxDepth with (of_nat 5). rewrite ltb_of_nat.
  destruct (c <? 5); [|reflexivity].
  change (Fin 1) with (of_nat 1). rewrite add_of_nat.
  now rewrite Nat.add_1_r.
Qed.

Lemma run_timers_idle events fuel st : run_timers events fuel st false = Some [].
Proof. destruct events; reflexivity. Qed.

Lemma run_timers_spec n : forall c j k pts,
  5 - c = n ->
  run_timers (S n + j) (S (Nat.max c 5) + k) (State (of_nat c) pts) true =
  Some (map (fun i => Draw (gasket i initialVertices) (of_nat (3 ^ S i)))
            (seq c (S n))).
Proof.
  induction n as [|n IH]; intros c j k pts Hn.
  - change (S 0 + j) with (S j). cbn [run_timers].
    replace (S (Nat.max c 5) + k) with (S c + (Nat.max c 5 - c + k)) by lia.
    rewrite animateGasket_frame.
    replace (c <? 5) with false by (symmetry; apply Nat.ltb_ge; lia).
    now rewrite run_timers_idle.
  - change (S (S n) + j) with (S (S n + j)). cbn [run_timers].
    replace (S (Nat.max c 5) + k) with (S c + (Nat.max c 5 - c + k)) by lia.
    rewrite animateGasket_frame.
    replace (c <? 5) with true by (symmetry; apply Nat.ltb_lt; lia).
    replace (S c + (Nat.max c 5 - c + k)) with (S (Nat.max (S c) 5) + k)
      by lia.
    rewrite IH by lia. reflexivity.
Qed.

(** X8.  The animation: from a current depth [c], and whatever the
    [points] array holds, the calls of [animateGasket] that the timers
    bring draw the gaskets of depth [c], [c + 1], ..., 5 and then stop (a
    single one of depth [c] when [c] is above 5).  Each drawing uploads the
    gasket of its depth alone, and its vertex count [3^(i+1)] is half the
    number of numbers uploaded. *)
Theorem animateGasket_frames :
  forall c j k points,
    run_timers (S (5 - c) + j) (S (Nat.max c 5) + k)
      (State (of_nat c) points) true =
    Some (map (fun i => Draw (gasket i initialVertices) (of_nat (3 ^ S i)))
              (seq c (S (5 - c)))) /\
    (forall i, length (gasket i initialVertices) = 2 * 3 ^ S i).
Proof.
  intros c j k points. split.
  - now apply run_timers_spec.
  - apply gasket_initial_length.
Qed.

(** X9.  The run of [initialize]: the first drawing is the single triangle
    of depth 0; the second, made in the same turn on the [points] array
    that still holds that triangle, uploads it followed by the gasket of
    depth 5 and draws 732 vertices, not 729; then the timers bring the
    gaskets of depth 1 to 5, and the one of depth 5 is the last drawing. *)
Theorem initialize_drawings :
  forall j k,
    initialize (5 + j) (6 + k) =
    Some (Draw initialVertices (of_nat 3) ::
          Draw (initialVertices ++ gasket 5 initialVertices) (of_nat 732) ::
          map (fun i => Draw (gasket i initialVertices) (of_nat (3 ^ S i)))
              (seq 1 5)).
Proof.
  intros j k. unfold initialize.
  change (6 + k) with (S 0 + (5 + k)) at 1.
  change (Fin 0) with (of_nat 0). rewrite animateGasket_frame.
  change (0 <? 5) with true. cbv iota. cbn [points currentDepth].
  change (gasket 0 initialVertices) with initialVertices.
  change (Fin 5) with (of_nat 5).
  change (6 + k) with (S 5 + k) at 1. rewrite sierpinskiT_spec.
  cbv iota beta. rewrite length_app, gasket_initial_length.
  generalize (gasket 5 initialVertices) as g5. intros g5.
  replace (length initialVertices + 2 * 3 ^ 6) with (2 * 732) by reflexivity.
  rewrite div_of_nat_2.
  change (5 + j) with (S (5 - 1) + j).
  change (6 + k) with (S (Nat.max 1 5) + k).
  rewrite run_timers_spec by reflexivity. reflexivity.
Qed.

End GasketFacts.

(** ** Arrays written by index *)

Lemma length_write_at i v arr :
  length (write_at i v arr) = Nat.max (length arr) (S i).
Proof.
  unfold write_at. destruct (i <? length arr) eqn:E.
  - apply Nat.ltb_lt in E.
    rewrite length_app, length_firstn. cbn [length].
    rewrite length_skipn. lia.
  - apply Nat.ltb_ge in E.
    rewrite !length_app, repeat_length. cbn [length]. lia.
Qed.

Lemma nth_write_at i v arr j :
  nth j (write_at i v arr) NaN = if j =? i then v else nth j arr NaN.
Proof.
  unfold write_at. destruct (i <? length arr) eqn:E.
  - apply Nat.ltb_lt in E.
    destruct (Nat.eqb_spec j i) as [->|Hne].
    + rewrite app_nth2; rewrite length_firstn; [|lia].
      now replace (i - Nat.min i (length arr)) with 0 by lia.
    + destruct (Nat.lt_ge_cases j i) as [Hlt|Hge].
      * rewrite app_nth1 by (rewrite length_firstn; lia).
        rewrite <- (firstn_skipn i arr) at 2.
        rewrite app_nth1 by (rewrite length_firstn; lia). reflexivity.
      * rewrite app_nth2; rewrite length_firstn; [|lia].
        replace (j - Nat.min i (length arr)) with (S (j - S i)) by lia.
        cbn [nth]. rewrite nth_skipn. f_equal. lia.
  - apply Nat.ltb_ge in E.
    destruct (Nat.eqb_spec j i) as [->|Hne].
    + rewrite app_nth2 by lia.
      rewrite app_nth2; rewrite repeat_length; [|lia].
      now replace (i - length arr - (i - length arr)) with 0 by lia.
    + destruct (Nat.lt_ge_cases j (length arr)) as [Hlt|Hge].
      * now rewrite app_nth1 by lia.
      * rewrite app_nth2 by lia. rewrite (nth_overflow arr) by lia.
        destruct (Nat.lt_ge_cases j i) as [Hlt|Hge'].
        -- rewrite app_nth1 by (rewrite repeat_length; lia).
           apply nth_repeat.
        -- rewrite app_nth2; rewrite repeat_length; [|lia].
           apply nth_overflow. cbn [length]. lia.
Qed.

Lemma array_set_of_nat arr n v :
  array_set arr (of_nat n) v = write_at n v arr.
Proof.
  unfold array_set, of_nat. rewrite Qred_integer.
  destruct n as [|n]; [reflexivity|].
  cbn [Z.of_nat]. now rewrite SuccNat2Pos.id_succ.
Qed.

(** ** Picking *)

Section PickingFacts.

Import Picking.

Lemma whichSideClicked_cases event canvas :
  whichSideClicked event canvas =
  let x := click_x event canvas in
  let y := click_y event canvas in
  if ltb (lit 5 10) x then Fin 4
  else if ltb x (lit (-5) 10) then Fin 5
  else if ltb (lit 5 10) y then Fin 2
  else if ltb y (lit (-5) 10) then Fin 3
  else if ltb (abs x) (lit 5 10) && ltb (lit (-5) 10) y && ltb y (lit 5 10)
  then Fin 0
  else Fin 1.
Proof. reflexivity. Qed.

Lemma whichSideClicked_face event canvas :
  exists n, n <= 5 /\ whichSideClicked event canvas = of_nat n.
Proof.
  rewrite whichSideClicked_cases. cbv zeta.
  repeat match goal with
         | |- context [if ?b then _ else _] => destruct b
         end;
    [exists 4 | exists 5 | exists 2 | exists 3 | exists 0 | exists 1];
    (split; [lia | reflexivity]).
Qed.

(** X10.  Wherever the click falls, and whatever the size of the canvas,
    [whichSideClicked] names one of the six faces and never gives -1; the
    listener therefore always takes the click: the state it leaves is the
    highlight of that face alone and does not depend on the state before,
    so highlights do not add up and no click removes the highlight. *)
Theorem onClick_highlights_one_face :
  forall st event canvas, exists n,
    n <= 5 /\
    whichSideClicked event canvas = of_nat n /\
    onClick st event canvas = State (of_nat n) (highlightSide (of_nat n)).
Proof.
  intros st event canvas.
  destruct (whichSideClicked_face event canvas) as (n & Hn & E).
  exists n. split; [exact Hn|]. split; [exact E|].
  unfold onClick. rewrite E.
  destruct n as [|n]; [reflexivity|].
  reflexivity.
Qed.

Lemma ltb_fin_iff a b : ltb (Fin a) (Fin b) = true <-> (a < b)%Q.
Proof.
  unfold ltb. rewrite negb_true_iff, <- not_true_iff_false, Qle_bool_iff.
  split; [apply Qnot_le_lt | apply Qlt_not_le].
Qed.

Lemma ltb_fin_false a b : ltb (Fin a) (Fin b) = false <-> (b <= a)%Q.
Proof. unfold ltb. now rewrite negb_false_iff, Qle_bool_iff. Qed.

Local Ltac compare_fin E :=
  first [apply ltb_fin_iff in E | apply ltb_fin_false in E];
  rewrite ?Qred_correct in E.

(** X11.  The back face, number 1, is what [whichSideClicked] answers
    only for a click on the border of the square in the middle of the
    canvas: for finite coordinates [x] and [y], exactly when both lie
    between -0.5 and 0.5 and one of them is -0.5 or 0.5. *)
Theorem whichSideClicked_back_face :
  forall event canvas x y,
    click_x event canvas = Fin x ->
    click_y event canvas = Fin y ->
    (whichSideClicked event canvas = Fin 1 <->
     (Qabs x <= 1 # 2 /\ Qabs y <= 1 # 2 /\
      (Qabs x == 1 # 2 \/ Qabs y == 1 # 2))%Q).
Proof.
  intros event canvas x y Hx Hy.
  rewrite whichSideClicked_cases, Hx, Hy. cbv zeta.
  change (lit 5 10) with (Fin (1 # 2)).
  change (lit (-5) 10) with (Fin (-1 # 2)).
  unfold abs, fin.
  assert (Ha : (0 <= x /\ Qabs x == x \/ x <= 0 /\ Qabs x == - x)%Q).
  { destruct (Qlt_le_dec x 0) as [Hs|Hs].
    - right. split; [lra|]. apply Qabs_neg. lra.
    - left. split; [lra|]. now apply Qabs_pos. }
  assert (Hb : (0 <= y /\ Qabs y == y \/ y <= 0 /\ Qabs y == - y)%Q).
  { destruct (Qlt_le_dec y 0) as [Hs|Hs].
    - right. split; [lra|]. apply Qabs_neg. lra.
    - left. split; [lra|]. now apply Qabs_pos. }
  revert Ha Hb. generalize (Qabs x) as ax, (Qabs y) as ay. intros ax ay Ha Hb.
  destruct (ltb (Fin (1 # 2)) (Fin x)) eqn:E1; compare_fin E1.
  { split; [discriminate | lra]. }
  destruct (ltb (Fin x) (Fin (-1 # 2))) eqn:E2; compare_fin E2.
  { split; [discriminate | lra]. }
  destruct (ltb (Fin (1 # 2)) (Fin y)) eqn:E3; compare_fin E3.
  { split; [discriminate | lra]. }
  destruct (ltb (Fin y) (Fin (-1 # 2))) eqn:E4; compare_fin E4.
  { split; [discriminate | lra]. }
  destruct (ltb (Fin (Qred ax)) (Fin (1 # 2))) eqn:E5; compare_fin E5;
    destruct (ltb (Fin (-1 # 2)) (Fin y)) eqn:E6; compare_fin E6;
    destruct (ltb (Fin y) (Fin (1 # 2))) eqn:E7; compare_fin E7;
    cbn [andb];
    (split; [try discriminate; intros _ | try (intros; reflexivity)]);
    try lra.
  all: repeat split; try lra.
  all: try (right; lra); try (left; lra).
Qed.

Lemma strict_eq_of_nat_minus_1 n : strict_eq (of_nat n) (Fin (-1 # 1)) = false.
Proof.
  unfold strict_eq, of_nat, Qeq_bool. cbn [Qnum Qden].
  apply Z.eqb_neq. lia.
Qed.

Lemma highlight_step s k arr :
  array_set
    (array_set (array_set arr (add (of_nat s) (of_nat k)) (Fin 0))
       (add (add (of_nat s) (of_nat k)) (Fin 1)) (Fin 1))
    (add (add (of_nat s) (of_nat k)) (Fin 2)) (Fin 0) =
  write_at (s + k + 2) (Fin 0)
    (write_at (s + k + 1) (Fin 1) (write_at (s + k) (Fin 0) arr)).
Proof.
  rewrite add_of_nat.
  rewrite (add_of_nat (s + k) 1
           : add (of_nat (s + k)) (Fin 1) = of_nat (s + k + 1)).
  rewrite (add_of_nat (s + k) 2
           : add (of_nat (s + k)) (Fin 2) = of_nat (s + k + 2)).
  now rewrite !array_set_of_nat.
Qed.

Lemma highlightSide_writes n :
  highlightSide (of_nat n) =
  let s := 12 * n in
  write_at (s + 11) (Fin 0) (write_at (s + 10) (Fin 1)
    (write_at (s + 9) (Fin 0) (write_at (s + 8) (Fin 0)
      (write_at (s + 7) (Fin 1) (write_at (s + 6) (Fin 0)
        (write_at (s + 5) (Fin 0) (write_at (s + 4) (Fin 1)
          (write_at (s + 3) (Fin 0) (write_at (s + 2) (Fin 0)
            (write_at (s + 1) (Fin 1) (write_at s (Fin 0)
              pinkColors))))))))))).
Proof.
  unfold highlightSide. rewrite strict_eq_of_nat_minus_1. cbn [negb].
  rewrite (mul_of_nat n 12 : mul (of_nat n) (Fin 12) = of_nat (n * 12)).
  change [Fin 0; Fin 3; Fin 6; Fin 9]
    with [of_nat 0; of_nat 3; of_nat 6; of_nat 9].
  cbv zeta. cbn [fold_left]. rewrite !highlight_step.
  replace (n * 12) with (12 * n) by lia.
  generalize (12 * n) as s. intros s.
  replace (s + 0 + 1) with (s + 1) by lia.
  replace (s + 0 + 2) with (s + 2) by lia.
  replace (s + 0) with s by lia.
  replace (s + 3 + 1) with (s + 4) by lia.
  replace (s + 3 + 2) with (s + 5) by lia.
  replace (s + 6 + 1) with (s + 7) by lia.
  replace (s + 6 + 2) with (s + 8) by lia.
  replace (s + 9 + 1) with (s + 10) by lia.
  replace (s + 9 + 2) with (s + 11) by lia.
  reflexivity.
Qed.

Local Ltac decide_writes :=
  repeat match goal with
         | |- context [?a =? ?b] =>
             lazymatch b with
             | 1 => fail
             | _ => destruct (Nat.eqb_spec a b); try lia
             end
         end.

(** X12.  [highlightSide] on face [n]: the twelve numbers of the face,
    from index [12 n] on, become four times 0, 1, 0 (green), every other
    number is the one of [pinkColors], and for the six faces of the cube
    the array keeps its 72 numbers.  For a face number above 5 the array
    grows to [12 n + 12] numbers, with holes between the pink colours and
    the green ones. *)
Theorem highlightSide_colors :
  forall n i,
    length (highlightSide (of_nat n)) = Nat.max 72 (12 * n + 12) /\
    nth i (highlightSide (of_nat n)) NaN =
      if (12 * n <=? i) && (i <? 12 * n + 12)
      then (if (i - 12 * n) mod 3 =? 1 then Fin 1 else Fin 0)
      else nth i pinkColors NaN.
Proof.
  intros n i. rewrite highlightSide_writes. cbv zeta.
  generalize (12 * n) as s. intros s. split.
  - rewrite !length_write_at.
    change (length pinkColors) with 72. lia.
  - rewrite !nth_write_at.
    destruct (Nat.leb_spec s i) as [Hle|Hlt];
      destruct (Nat.ltb_spec i (s + 12)) as [Hlt'|Hge]; cbn [andb].
    + assert (Hi : exists r, r < 12 /\ i = s + r) by (exists (i - s); lia).
      destruct Hi as (r & Hr & ->).
      replace (s + r - s) with r by lia.
      do 12 (destruct r as [|r]; [decide_writes; reflexivity|]).
      lia.
    + decide_writes; reflexivity.
    + decide_writes; reflexivity.
    + lia.
Qed.

End PickingFacts.

(** ** The spinning cube *)

Section CubeFacts.

Import Cube.

Variables Math_sin Math_cos : number -> number.

Local Abbreviation rotateX := (Cube.rotateX Math_sin Math_cos).
Local Abbreviation rotateY := (Cube.rotateY Math_sin Math_cos).
Local Abbreviation animate := (Cube.animate Math_sin Math_cos).

Lemma rotateX_length matrix angle :
  length (rotateX matrix angle) = Nat.max (length matrix) 11.
Proof. unfold Cube.rotateX. cbv zeta. rewrite !length_write_at. lia. Qed.

Lemma rotateY_length matrix angle :
  length (rotateY matrix angle) = Nat.max (length matrix) 11.
Proof. unfold Cube.rotateY. cbv zeta. rewrite !length_write_at. lia. Qed.

Lemma rotateX_nth matrix angle i :
  nth i (rotateX matrix angle) NaN =
  let s := Math_sin angle in
  let c := Math_cos angle in
  let old j := nth j matrix NaN in
  if (i <? 12) && (i mod 4 =? 1)
  then sub (mul (old i) c) (mul (old (i + 1)) s)
  else if (i <? 12) && (i mod 4 =? 2)
  then add (mul (old (i - 1)) s) (mul (old i) c)
  else old i.
Proof.
  unfold Cube.rotateX. cbv zeta. rewrite !nth_write_at.
  do 12 (destruct i as [|i]; [reflexivity|]).
  reflexivity.
Qed.

Lemma rotateY_nth matrix angle i :
  nth i (rotateY matrix angle) NaN =
  let s := Math_sin angle in
  let c := Math_cos angle in
  let old j := nth j matrix NaN in
  if (i <? 12) && (i mod 4 =? 0)
  then add (mul (old i) c) (mul (old (i + 2)) s)
  else if (i <? 12) && (i mod 4 =? 2)
  then add (mul (old (i - 2)) (neg s)) (mul (old i) c)
  else old i.
Proof.
  unfold Cube.rotateY. cbv zeta. rewrite !nth_write_at.
  do 12 (destruct i as [|i]; [reflexivity|]).
  reflexivity.
Qed.

(** X13.  [rotateX] and [rotateY] compute every entry from the values that
    the matrix held before the call, although they write into it while
    they read it: in each of the first three groups of four entries
    [rotateX] turns the entries 1 and 2, [rotateY] the entries 0 and 2, by
    the sine and the cosine of the angle; every other entry stays, and an
    array of 16 numbers keeps its length. *)
Theorem rotate_entries :
  forall matrix angle i,
    let s := Math_sin angle in
    let c := Math_cos angle in
    let old j := nth j matrix NaN in
    nth i (rotateX matrix angle) NaN =
      (if (i <? 12) && (i mod 4 =? 1)
       then sub (mul (old i) c) (mul (old (i + 1)) s)
       else if (i <? 12) && (i mod 4 =? 2)
       then add (mul (old (i - 1)) s) (mul (old i) c)
       else old i) /\
    nth i (rotateY matrix angle) NaN =
      (if (i <? 12) && (i mod 4 =? 0)
       then add (mul (old i) c) (mul (old (i + 2)) s)
       else if (i <? 12) && (i mod 4 =? 2)
       then add (mul (old (i - 2)) (neg s)) (mul (old i) c)
       else old i) /\
    length (rotateX matrix angle) = Nat.max (length matrix) 11 /\
    length (rotateY matrix angle) = Nat.max (length matrix) 11.
Proof.
  intros matrix angle i. cbv zeta.
  split; [apply rotateX_nth|]. split; [apply rotateY_nth|].
  split; [apply rotateX_length | apply rotateY_length].
Qed.

Lemma rotate_keeps matrix angle angle' i :
  i mod 4 = 3 \/ 12 <= i ->
  nth i (rotateY (rotateX matrix angle) angle') NaN = nth i matrix NaN.
Proof.
  intros Hi. rewrite rotateY_nth. cbv zeta.
  assert (E0 : (i <? 12) && (i mod 4 =? 0) = false).
  { destruct Hi as [Hi|Hi].
    - rewrite Hi. apply andb_false_r.
    - replace (i <? 12) with false by (symmetry; apply Nat.ltb_ge; lia).
      reflexivity. }
  assert (E1 : (i <? 12) && (i mod 4 =? 1) = false).
  { destruct Hi as [Hi|Hi].
    - rewrite Hi. apply andb_false_r.
    - replace (i <? 12) with false by (symmetry; apply Nat.ltb_ge; lia).
      reflexivity. }
  assert (E2 : (i <? 12) && (i mod 4 =? 2) = false).
  { destruct Hi as [Hi|Hi].
    - rewrite Hi. apply andb_false_r.
    - replace (i <? 12) with false by (symmetry; apply Nat.ltb_ge; lia).
      reflexivity. }
  rewrite E0, E2. rewrite rotateX_nth. cbv zeta. now rewrite E1, E2.
Qed.

Lemma last_cons_default (A : Type) (x d : A) (l : list A) :
  last (x :: l) d = last l x.
Proof.
  revert x d. induction l as [|y l IH]; intros x d; [reflexivity|].
  change (last (x :: y :: l) d) with (last (y :: l) d).
  now rewrite !IH.
Qed.

Lemma animate_frames times : forall st,
  let st' := fold_left animate times st in
  length (movMatrix st') = Nat.max (length (movMatrix st))
                             (match times with [] => 0 | _ => 11 end) /\
  (forall i, i mod 4 = 3 \/ 12 <= i ->
     nth i (movMatrix st') NaN = nth i (movMatrix st) NaN) /\
  oldTime st' = last times (oldTime st).
Proof.
  induction times as [|time times IH]; intros st; cbv zeta.
  - cbn [fold_left last]. repeat split. lia.
  - cbn [fold_left].
    destruct (IH (animate st time)) as (L & F & T). cbv zeta in L, F, T.
    split; [|split].
    + rewrite L. unfold Cube.animate. cbn [movMatrix].
      rewrite rotateY_length, rotateX_length. destruct times; lia.
    + intros i Hi. rewrite (F i Hi).
      unfold Cube.animate. cbn [movMatrix]. now apply rotate_keeps.
    + rewrite T. unfold Cube.animate. cbn [oldTime].
      symmetry. apply last_cons_default.
Qed.

(** X14.  Whatever the frame times are, and whatever [Math.sin] and
    [Math.cos] return, the model matrix of the cube stays an array of 16
    numbers whose last entry of every group of four and whose last group
    are those of the identity it started from: the frames turn the cube
    and never move it.  [oldTime] is the time of the last frame. *)
Theorem animate_keeps_position :
  forall times,
    let st := fold_left animate times initial in
    length (movMatrix st) = 16 /\
    (forall i, i mod 4 = 3 \/ 12 <= i ->
       nth i (movMatrix st) NaN = nth i (movMatrix initial) NaN) /\
    oldTime st = last times (Fin 0).
Proof.
  intros times.
  destruct (animate_frames times initial) as (L & F & T).
  cbv zeta in *. split; [|split].
  - rewrite L. cbn [initial movMatrix length]. destruct times; lia.
  - exact F.
  - exact T.
Qed.

End CubeFacts.

(** ** Closed instances *)

(** The first face of the tetrahedron at depth 0, on empty arrays and on the
    arrays that this very call leaves: the vertex data appended are the
    same, the indices appended are not. *)
Example refineSphere_twice :
  refineSphere Reference.vec3_add Reference.vec3_normalize 1
    initialA initialB initialC (Fin 0) (Buffers [] []) =
  Some (Buffers (spread initialA ++ spread initialB ++ spread initialC)
                [Fin 0; Fin 1; Fin 2]) /\
  refineSphere Reference.vec3_add Reference.vec3_normalize 1
    initialA initialB initialC (Fin 0)
    (Buffers (spread initialA ++ spread initialB ++ spread initialC)
             [Fin 0; Fin 1; Fin 2]) =
  Some (Buffers ((spread initialA ++ spread initialB ++ spread initialC) ++
                 spread initialA ++ spread initialB ++ spread initialC)
                [Fin 0; Fin 1; Fin 2; Fin 3; Fin 4; Fin 5]).
Proof. split; reflexivity. Qed.

(** The mesh of depth 1 under the identity matrix: sixteen draw commands,
    the first one in blue and the last one in red. *)
Example renderSphere_depth_1 :
  match createSphereBuffers Reference.vec3_add Reference.vec3_normalize 2
          (Some (of_nat 1)) with
  | Some sphereData =>
      option_map
        (fun cmds => (length cmds,
                      map dc_color (firstn 1 cmds),
                      map dc_color (skipn 15 cmds)))
        (renderSphere Reference.vec4_transformMat4 16 Reference.mat4_create
           sphereData)
  | None => None
  end =
  Some (16, [[Fin 0; Fin 0; Fin 1; Fin 1]], [[Fin 1; Fin 0; Fin 0; Fin 1]]).
Proof. vm_compute. reflexivity. Qed.

(** C9, as stated, fails: no function of [(v1, v2, v3, depth)] alone gives
    what a call appends to the two arrays.  At depth 0 the face (A, B, C)
    appends the indices 0, 1, 2 to empty arrays and the indices 3, 4, 5 to
    arrays that hold one triangle. *)
Lemma refineSphere_suffix_not_pure :
  ~ (exists suffix : vec3 -> vec3 -> vec3 -> number -> buffers,
       forall fuel v1 v2 v3 depth b b',
         refineSphere Reference.vec3_add Reference.vec3_normalize
           fuel v1 v2 v3 depth b = Some b' ->
         vertices b' = vertices b ++ vertices (suffix v1 v2 v3 depth) /\
         indices b' = indices b ++ indices (suffix v1 v2 v3 depth)).
Proof.
  intros [suffix H].
  destruct refineSphere_twice as [H0 H1].
  apply H in H0, H1. destruct H0 as [_ H0], H1 as [_ H1].
  cbn [indices app] in H0, H1.
  apply (app_inv_head [Fin 0; Fin 1; Fin 2]) in H1.
  rewrite <- H0 in H1. discriminate H1.
Qed.

(** C4, as stated, fails: a list of one triangle is drawn with the colour
    [(NaN, 0, NaN, 1)], not [(0, 0, 1, 1)]. *)
Lemma draw_triangles_single_not_blue :
  map dc_color
    (draw_triangles
       [Triangle [Fin 0; Fin 0; Fin (-1);
                  Fin 0; Fin (942809 # 1000000); Fin (333333 # 1000000);
                  Fin (-816497 # 1000000); Fin (-94281 # 200000);
                  Fin (333333 # 1000000)]
                 (Fin (-1 # 9))]) =
    [[NaN; Fin 0; NaN; Fin 1]] /\
  map dc_color
    (draw_triangles
       [Triangle [Fin 0; Fin 0; Fin (-1);
                  Fin 0; Fin (942809 # 1000000); Fin (333333 # 1000000);
                  Fin (-816497 # 1000000); Fin (-94281 # 200000);
                  Fin (333333 # 1000000)]
                 (Fin (-1 # 9))]) <>
    [[Fin 0; Fin 0; Fin 1; Fin 1]].
Proof. split; [reflexivity | discriminate]. Qed.

(** Three triangles, two of them at the same depth. *)
Lemma sort_triangles_sorted_stable_witness :
  Forall has_depth
    [Triangle [Fin 1] (Fin 2); Triangle [Fin 2] (Fin (-1));
     Triangle [Fin 3] (Fin 2)] /\
  sort_triangles
    [Triangle [Fin 1] (Fin 2); Triangle [Fin 2] (Fin (-1));
     Triangle [Fin 3] (Fin 2)] =
    [Triangle [Fin 2] (Fin (-1)); Triangle [Fin 1] (Fin 2);
     Triangle [Fin 3] (Fin 2)] /\
  depth_sorted
    (sort_triangles
       [Triangle [Fin 1] (Fin 2); Triangle [Fin 2] (Fin (-1));
        Triangle [Fin 3] (Fin 2)]).
Proof.
  assert (H : Forall has_depth
    [Triangle [Fin 1] (Fin 2); Triangle [Fin 2] (Fin (-1));
     Triangle [Fin 3] (Fin 2)]) by (repeat constructor).
  split; [exact H|]. split; [reflexivity|].
  exact (proj1 (sort_triangles_sorted_stable H)).
Defined.

(** Three triangles: the last one, at position 2, is drawn in red. *)
Lemma draw_triangles_gradient_witness :
  1 < length [Triangle [Fin 1] (Fin (-1)); Triangle [Fin 2] (Fin 0);
              Triangle [Fin 3] (Fin 2)] /\
  nth_error [Triangle [Fin 1] (Fin (-1)); Triangle [Fin 2] (Fin 0);
             Triangle [Fin 3] (Fin 2)] 2 = Some (Triangle [Fin 3] (Fin 2)) /\
  nth_error
    (draw_triangles
       [Triangle [Fin 1] (Fin (-1)); Triangle [Fin 2] (Fin 0);
        Triangle [Fin 3] (Fin 2)]) 2 =
  Some (DrawCommand [Fin 1; Fin 0; Fin 0; Fin 1] [Fin 3]).
Proof.
  assert (Hn : 1 < length [Triangle [Fin 1] (Fin (-1));
                            Triangle [Fin 2] (Fin 0);
                            Triangle [Fin 3] (Fin 2)]) by (cbn; lia).
  split; [exact Hn|]. split; [reflexivity|].
  exact (proj1 (draw_triangles_gradient
                  [Triangle [Fin 1] (Fin (-1)); Triangle [Fin 2] (Fin 0);
                   Triangle [Fin 3] (Fin 2)] 2 Hn eq_refl)).
Defined.

(** The mesh of depth 2 computed by the reference instance, which is
    accurate. *)
Lemma createSphereBuffers_near_unit_witness :
  accurate_add Reference.vec3_add /\
  accurate_normalize Reference.vec3_normalize /\
  exists b pts,
    createSphereBuffers Reference.vec3_add Reference.vec3_normalize 3
      (Some (of_nat 2)) = Some b /\
    vertices b = flat_map spread pts /\
    Forall near_unit pts.
Proof.
  split; [exact Reference_accurate_add|].
  split; [exact Reference_accurate_normalize|].
  exact (createSphereBuffers_near_unit
           Reference_accurate_add Reference_accurate_normalize 2 0).
Defined.

(** The index buffer of the mesh of depth 1 computed by the reference
    instance: 48 indices, all below [2^16]. *)
Lemma index_buffer_uint16_witness :
  1 <= 6 /\
  exists b,
    createSphereBuffers Reference.vec3_add Reference.vec3_normalize
      (S 1 + 0) (Some (of_nat 1)) = Some b /\
    Uint16Array (indices b) = map Z.of_nat (seq 0 (length (indices b))).
Proof.
  assert (H : 1 <= 6) by lia.
  split; [exact H|].
  exact (proj1 (index_buffer_uint16 Reference.vec3_add
                  Reference.vec3_normalize) 1 0 H).
Defined.

(** Three triangles: their colours are the gradient of length 3. *)
Lemma draw_triangles_colors_witness :
  1 < 3 /\ 1 < 3 /\
  forall triangles, length triangles = 3 ->
    map dc_color (draw_triangles triangles) = map (gradient 3) (seq 0 3).
Proof.
  assert (H : 1 < 3) by lia.
  split; [exact H|]. split; [exact H|].
  exact (proj1 (@draw_triangles_colors 3 0 H H)).
Defined.

(** A click a quarter of the width from the left edge of a canvas of 400 by
    400 pixels, at half its height: [x] is -0.5 and the answer is the back
    face. *)
Lemma whichSideClicked_back_face_witness :
  Picking.click_x
    {| Picking.clientX := Fin 100; Picking.clientY := Fin 200 |}
    {| Picking.width := Fin 400; Picking.height := Fin 400;
       Picking.left := Fin 0; Picking.top := Fin 0 |} = Fin (-1 # 2) /\
  Picking.click_y
    {| Picking.clientX := Fin 100; Picking.clientY := Fin 200 |}
    {| Picking.width := Fin 400; Picking.height := Fin 400;
       Picking.left := Fin 0; Picking.top := Fin 0 |} = Fin 0 /\
  (Qabs (-1 # 2) <= 1 # 2 /\ Qabs 0 <= 1 # 2 /\
   (Qabs (-1 # 2) == 1 # 2 \/ Qabs 0 == 1 # 2))%Q.
Proof.
  split; [reflexivity|]. split; [reflexivity|].
  apply (proj1 (@whichSideClicked_back_face
                  {| Picking.clientX := Fin 100; Picking.clientY := Fin 200 |}
                  {| Picking.width := Fin 400; Picking.height := Fin 400;
                     Picking.left := Fin 0; Picking.top := Fin 0 |}
                  (-1 # 2) 0 eq_refl eq_refl)).
  reflexivity.
Defined.

(** Two frames that turn the cube by the angle of sine 3/5 and cosine 4/5:
    entry 3 of the model matrix is still 0. *)
Lemma animate_keeps_position_witness :
  (3 mod 4 = 3 \/ 12 <= 3) /\
  nth 3
    (Cube.movMatrix
       (fold_left
          (Cube.animate (fun _ => Fin (3 # 5)) (fun _ => Fin (4 # 5)))
          [Fin 16; Fin 33] Cube.initial)) NaN = Fin 0.
Proof.
  assert (H : 3 mod 4 = 3 \/ 12 <= 3) by (left; reflexivity).
  split; [exact H|].
  exact (proj1 (proj2 (animate_keeps_position
                         (fun _ => Fin (3 # 5)) (fun _ => Fin (4 # 5))
                         [Fin 16; Fin 33])) 3 H).
Defined.
